(** * The typings registry of [definitions-parser/src/packages.ts]

    A shallow embedding of the package / version data model and of the
    resolution algorithms of [packages.ts]: scoped-name mangling, the
    per-package version set ([TypingsVersions]), the two package variants
    ([TypingsData], [NotNeededPackage]) and the registry ([AllPackages]).

    Conventions of the embedding.
    - A JavaScript string is a [string]; only code-unit level operations on
      the ASCII characters "@" and "/" are used by the code.
    - A JavaScript object used as a dictionary, and a JavaScript [Map], are
      association lists in property / insertion order.
    - [undefined] is [None]; a [throw] is the [Throw] result of [Exc].
    - A generator is the finite trace [Gen] of what it yields.
    - Version numbers are [N]. *)

From Stdlib Require Import ZArith NArith Lia Ascii String.
From Stdlib Require Import DecimalString DecimalN.
From stdpp Require Import base numbers option list strings sorting.

Local Open Scope stdpp_scope.

(* ================================================================== *)
(** * Part I: the embedding *)
(* ================================================================== *)

(** ** JavaScript strings *)

Module JsString.

(** [s.startsWith(prefix)] *)
Definition startsWith (s prefix : string) : bool := String.prefix prefix s.

(** [s.slice(n)] for [0 <= n]: drop the first [n] code units. *)
Fixpoint slice (n : nat) (s : string) : string :=
  match n, s with
  | O, _ => s
  | S _, EmptyString => EmptyString
  | S n', String _ s' => slice n' s'
  end.

(** [s.replace(pattern, replacement)] with a string pattern: only the
    first occurrence of [pattern] is replaced. *)
Fixpoint replace (pattern replacement s : string) : string :=
  if String.prefix pattern s
  then replacement +:+ slice (String.length pattern) s
  else match s with
       | EmptyString => EmptyString
       | String c s' => String c (replace pattern replacement s')
       end.

(** Number of occurrences of the character [c] in [s]. *)
Fixpoint count (c : ascii) (s : string) : nat :=
  match s with
  | EmptyString => 0
  | String d s' => (if Ascii.eqb c d then 1 else 0) + count c s'
  end.

(** Replace every occurrence of the character [c] by [replacement]. *)
Fixpoint replaceAllChar (c : ascii) (replacement s : string) : string :=
  match s with
  | EmptyString => EmptyString
  | String d s' =>
      (if Ascii.eqb c d then replacement else String d EmptyString)
        +:+ replaceAllChar c replacement s'
  end.

(** [s.split(sep)] for a separator of one character. *)
Fixpoint split (sep : ascii) (s : string) : list string :=
  match s with
  | EmptyString => [EmptyString]
  | String c s' =>
      if Ascii.eqb c sep then EmptyString :: split sep s'
      else match split sep s' with
           | [] => [String c EmptyString]
           | part :: parts => String c part :: parts
           end
  end.

(** [`${n}`] for a non-negative integer below 1e21: its decimal digits. *)
Definition ofNumber (n : N) : string :=
  NilEmpty.string_of_uint (N.to_uint n).

End JsString.

(** ** The name mangler *)

(** [getMangledNameForScopedPackage] *)
Definition getMangledNameForScopedPackage (packageName : string) : string :=
  if JsString.startsWith packageName "@" then
    let replaceSlash := JsString.replace "/" "__" packageName in
    if negb (String.eqb replaceSlash packageName)
    then JsString.slice 1 replaceSlash
    else packageName
  else packageName.

Abbreviation mangle := getMangledNameForScopedPackage (only parsing).

(** ** Versions, exceptions and generators *)

(** [DirectoryParsedTypingVersion]: minor may be unknown if parsed from a
    major-only version directory. *)
Record DirectoryParsedTypingVersion := {
  dir_major : N;
  dir_minor : option N;
}.

(** [HeaderParsedTypingVersion]: both major and minor are known. *)
Record HeaderParsedTypingVersion := {
  hdr_major : N;
  hdr_minor : N;
}.

(** [DependencyVersion = DirectoryParsedTypingVersion | "*"] *)
Inductive DependencyVersion :=
  | Star
  | Version (v : DirectoryParsedTypingVersion).

(** What the code throws.  The message of an [Error] is kept as the data
    it is formatted from. *)
Inductive Error :=
  (** [`No typings found with name '${dep.name}'.`] *)
  | NoTypingsFound (name : string)
  (** [`Could not find version ${major}.${minor ?? "*"}. ${errorMessage || ""}`] *)
  | CouldNotFindVersion (version : DirectoryParsedTypingVersion)
                        (errorMessage : option string)
  (** [`not-needed package '${name}' must use all lower-case letters.`] *)
  | NameNotLowerCase (name : string)
  (** [`Unexpected key in not-needed package: ${key}`] *)
  | UnexpectedKey (key : string)
  (** [`not-needed package '${name}' must use a libraryName that is all
      lower-case letters.`] *)
  | LibraryNameNotLowerCase (name : string)
  (** a failed [assert] *)
  | AssertionError
  (** [semver]'s [TypeError: Invalid Version] *)
  | InvalidVersion (version : string)
  (** reading a property of [undefined] *)
  | TypeErrorUndefined
  (** [`Could not find version undefined.*. `]: the version asked for is a
      value without a [major], and no message came with it *)
  | CouldNotFindVersionUndefined.

Inductive Exc (A : Type) :=
  | Ok (a : A)
  | Throw (e : Error).
Arguments Ok {A} a.
Arguments Throw {A} e.

Definition Exc_bind {A B} (m : Exc A) (k : A -> Exc B) : Exc B :=
  match m with
  | Ok a => k a
  | Throw e => Throw e
  end.

Notation "x <~ m ;; k" := (Exc_bind m (fun x => k))
  (at level 100, m at next level, right associativity).

(** The trace of a generator: what it yields, in order, until it returns
    or throws. *)
Inductive Gen (A : Type) :=
  | GDone
  | GYield (a : A) (rest : Gen A)
  | GThrow (e : Error).
Arguments GDone {A}.
Arguments GYield {A} a rest.
Arguments GThrow {A} e.

(** Running one generator after another; a throw ends the trace. *)
Fixpoint Gen_seq {A} (g1 g2 : Gen A) : Gen A :=
  match g1 with
  | GDone => g2
  | GYield a rest => GYield a (Gen_seq rest g2)
  | GThrow e => GThrow e
  end.

(** [yield e] where evaluating [e] may throw. *)
Definition Gen_yield {A} (m : Exc A) (rest : Gen A) : Gen A :=
  match m with
  | Ok a => GYield a rest
  | Throw e => GThrow e
  end.

(** ** JavaScript objects, maps and arrays *)

Section Containers.
Context {K V : Type} `{EqDecision K}.

(** [o[k]] on an object used as a dictionary. *)
Fixpoint Object_get (o : list (K * V)) (k : K) : option V :=
  match o with
  | [] => None
  | (k', v) :: o' => if decide (k' = k) then Some v else Object_get o' k
  end.

(** [Object.keys(o)] and [Object.entries(o)] *)
Definition Object_keys (o : list (K * V)) : list K := fst <$> o.
Definition Object_entries (o : list (K * V)) : list (K * V) := o.

(** [m.get(k)] on a [Map]. *)
Definition Map_get (m : list (K * V)) (k : K) : option V := Object_get m k.

(** [m.set(k, v)]: an existing key keeps its position. *)
Fixpoint Map_set (m : list (K * V)) (k : K) (v : V) : list (K * V) :=
  match m with
  | [] => [(k, v)]
  | (k', v') :: m' =>
      if decide (k' = k) then (k, v) :: m' else (k', v') :: Map_set m' k v
  end.

(** [new Map(entries)] *)
Definition Map_new (entries : list (K * V)) : list (K * V) :=
  foldl (fun m kv => Map_set m kv.1 kv.2) [] entries.

(** [m.values()] *)
Definition Map_values (m : list (K * V)) : list V := snd <$> m.
End Containers.

(** The members every plain object inherits from [Object.prototype]. *)
Definition inheritedMembers : list string :=
  [ "constructor"; "__defineGetter__"; "__defineSetter__"; "hasOwnProperty";
    "__lookupGetter__"; "__lookupSetter__"; "isPrototypeOf";
    "propertyIsEnumerable"; "toString"; "valueOf"; "__proto__";
    "toLocaleString" ].

(** What reading [o[k]] finds on a plain object under any name [k]: an own
    property, a member inherited from [Object.prototype] (a function, or
    the prototype itself: an object, truthy, without own enumerable
    properties and without a [major]), or [undefined]. *)
Inductive Property (V : Type) :=
  | Own (v : V)
  | Inherited
  | Undefined.
Arguments Own {V} v.
Arguments Inherited {V}.
Arguments Undefined {V}.

Definition Object_read {V} (o : list (string * V)) (k : string) : Property V :=
  match Object_get o k with
  | Some v => Own v
  | None => if bool_decide (k ∈ inheritedMembers) then Inherited else Undefined
  end.

(** [a.sort(compareFn)]: a stable sort; [compareFn a b <= 0] keeps [a]
    before [b]. *)
Definition sorts_before {A} (compareFn : A -> A -> Z) (x y : A) : Prop :=
  (compareFn x y <= 0)%Z.

#[export] Instance sorts_before_dec {A} (compareFn : A -> A -> Z) x y :
  Decision (sorts_before compareFn x y).
Proof. unfold sorts_before. apply _. Defined.

Definition Array_sort {A} (compareFn : A -> A -> Z) (a : list A) : list A :=
  merge_sort (sorts_before compareFn) a.

(** [a.find(p)] *)
Definition Array_find {A} (p : A -> bool) (a : list A) : option A :=
  snd <$> list_find (fun x => p x = true) a.

(** ** Semantic versions ([semver.SemVer]) *)

Module SemVer.

(** A [SemVer] object.  [ref] is the identity of the object: a [Map]
    keyed by [SemVer] objects compares keys by identity, and two objects
    with the same identity are the same object.  Every version handled
    here has an empty prerelease tag, which is left out. *)
Record t := {
  ref : nat;
  major : N;
  minor : N;
  patch : N;
}.

#[global] Instance eq_dec : EqDecision t.
Proof. solve_decision. Defined.

(** [x || y] on numbers *)
Definition or_else (x y : Z) : Z := if (x =? 0)%Z then y else x.

Definition compareIdentifiers (a b : N) : Z :=
  if (a =? b)%N then 0%Z else if (a <? b)%N then (-1)%Z else 1%Z.

Definition compareMain (a b : t) : Z :=
  or_else (compareIdentifiers (major a) (major b))
    (or_else (compareIdentifiers (minor a) (minor b))
       (compareIdentifiers (patch a) (patch b))).

(** [a.compare(b)]; with empty prerelease tags [comparePre] is 0. *)
Definition compare (a b : t) : Z := or_else (compareMain a b) 0%Z.

(** [semver.rcompare(a, b) = compare(b, a)] *)
Definition rcompare (a b : t) : Z := compare b a.

End SemVer.

(** ** Raw per-version data ([TypingsDataRaw]) *)

Module TypingsDataRaw.

(** The fields the registry reads; the remaining fields of the source
    interface (contributors, license, content hash, ...) are carried
    through untouched and play no role in resolution. *)
Record t := {
  libraryName : string;
  typingsPackageName : string;
  dependencies : list (string * DependencyVersion);
  testDependencies : list string;
  pathMappings : list (string * DirectoryParsedTypingVersion);
  libraryVersionDirectoryName : option string;
  libraryMajorVersion : N;
  libraryMinorVersion : N;
  files : list string;
  globals : list string;
  declaredModules : list string;
}.

End TypingsDataRaw.

(** ** Package identifiers *)

Module PackageId.
Record t := {
  name : string;
  version : DependencyVersion;
}.
End PackageId.

Module PackageIdWithDefiniteVersion.
Record t := {
  name : string;
  version : HeaderParsedTypingVersion;
}.

(** A definite-version id used where a [PackageId] is expected. *)
Definition toPackageId (id : t) : PackageId.t :=
  {| PackageId.name := name id;
     PackageId.version :=
       Version {| dir_major := hdr_major (version id);
                  dir_minor := Some (hdr_minor (version id)) |} |}.
End PackageIdWithDefiniteVersion.

(** ** Values of unknown type, and the errors of the other operations *)

(** A value of type [unknown], as far as the code tells values apart:
    [undefined], a string, or anything else. *)
Inductive JsValue :=
  | JsUndefined
  | JsString (s : string)
  | JsOther.

(** What the operations below throw, besides what [Error] lists. *)
Inductive Failure :=
  (** [`No such package ${packageName}.`] *)
  | NoSuchPackage (packageName : string)
  (** [`No typings available for ${JSON.stringify(id)}`] *)
  | NoTypingsAvailable (id : PackageId.t)
  (** [`Can't find package ${name}`] *)
  | CantFindPackage (name : string)
  (** [`Package ${name} has multiple versions.`] *)
  | MultipleVersions (name : string)
  (** [`Cannot find not-needed package ${name}`] *)
  | CannotFindNotNeeded (name : string)
  (** [`Specifying '"license": "MIT"' is redundant, this is the default.`] *)
  | RedundantLicense
  (** [`'package.json' license is ${JSON.stringify(packageJsonLicense)}. ...`] *)
  | UnexpectedLicense (packageJsonLicense : JsValue)
  (** an [Error] thrown by a callee *)
  | Thrown (e : Error).

Inductive Outcome (A : Type) :=
  | Returns (a : A)
  | Fails (f : Failure).
Arguments Returns {A} a.
Arguments Fails {A} f.

(** ** Printing versions *)

Definition formatTypingVersion (version : DirectoryParsedTypingVersion)
  : string :=
  JsString.ofNumber (dir_major version)
  +:+ match dir_minor version with
      | None => EmptyString
      | Some minor => "." +:+ JsString.ofNumber minor
      end.

Definition formatDependencyVersion (version : DependencyVersion) : string :=
  match version with
  | Star => "*"
  | Version version => formatTypingVersion version
  end.

(** ** Licenses *)

Inductive License := MIT | Apache20.

(** The string an enum member stands for. *)
Definition License_value (license : License) : string :=
  match license with
  | MIT => "MIT"
  | Apache20 => "Apache-2.0"
  end.

Definition allLicenses : list License := [MIT; Apache20].

(** [allLicenses.includes(v)] and the member [v] then is. *)
Definition License_of (v : JsValue) : option License :=
  match v with
  | JsString s => Array_find (fun l => String.eqb (License_value l) s) allLicenses
  | _ => None
  end.

Definition getLicenseFromPackageJson (packageJsonLicense : JsValue)
  : Outcome License :=
  match packageJsonLicense with
  | JsUndefined => Returns MIT
  | _ =>
      if match packageJsonLicense with
         | JsString s => String.eqb s "MIT"
         | _ => false
         end
      then Fails RedundantLicense
      else match License_of packageJsonLicense with
           | Some license => Returns license
           | None => Fails (UnexpectedLicense packageJsonLicense)
           end
  end.

(** ** [TypingsData] *)

Module TypingsData.

Record t := {
  data : TypingsDataRaw.t;
  isLatest : bool;
}.

Definition new (data : TypingsDataRaw.t) (isLatest : bool) : t :=
  {| data := data; isLatest := isLatest |}.

Definition name (this : t) : string :=
  TypingsDataRaw.typingsPackageName (data this).
Definition testDependencies (this : t) : list string :=
  TypingsDataRaw.testDependencies (data this).
Definition major (this : t) : N :=
  TypingsDataRaw.libraryMajorVersion (data this).
Definition minor (this : t) : N :=
  TypingsDataRaw.libraryMinorVersion (data this).
Definition declaredModules (this : t) : list string :=
  TypingsDataRaw.declaredModules (data this).
Definition globals (this : t) : list string :=
  TypingsDataRaw.globals (data this).
Definition pathMappings (this : t)
  : list (string * DirectoryParsedTypingVersion) :=
  TypingsDataRaw.pathMappings (data this).
Definition dependencies (this : t) : list (string * DependencyVersion) :=
  TypingsDataRaw.dependencies (data this).

(** [PackageBase.id] *)
Definition id (this : t) : PackageIdWithDefiniteVersion.t :=
  {| PackageIdWithDefiniteVersion.name := name this;
     PackageIdWithDefiniteVersion.version :=
       {| hdr_major := major this; hdr_minor := minor this |} |}.

End TypingsData.

(** ** The version set ([TypingsVersions]) *)

Module TypingsVersions.

(** A key [`${major}.${minor}`] of [TypingsVersionsRaw], held as the pair
    of numbers it is written from.  [new semver.SemVer(`${key}.0`)]
    reads the two numbers back, and [`${version.major}.${version.minor}`]
    prints the same key again. *)
Definition VersionKey : Type := N * N.

(** [TypingsVersionsRaw], in property order. *)
Definition TypingsVersionsRaw : Type := list (VersionKey * TypingsDataRaw.t).

Record t := {
  map : list (SemVer.t * TypingsData.t);
  (** Sorted from latest to oldest. *)
  versions : list SemVer.t;
}.

(** [new semver.SemVer(`${key}.0`)], allocated as object number [ref].
    [semver] accepts the numbers up to [Number.MAX_SAFE_INTEGER] and throws
    for a greater one; key numbers are taken in that range. *)
Definition parseKey (ref : nat) (key : VersionKey) : SemVer.t :=
  {| SemVer.ref := ref;
     SemVer.major := key.1;
     SemVer.minor := key.2;
     SemVer.patch := 0%N |}.

(** [`${version.major}.${version.minor}`] *)
Definition keyOf (version : SemVer.t) : VersionKey :=
  (SemVer.major version, SemVer.minor version).

(** [!i] for an array index [i] *)
Definition isZero (i : nat) : bool :=
  match i with O => true | S _ => false end.

(** The constructor.  [data[key]] is [undefined] for a missing key; a
    record around an [undefined] entry is not represented, and the
    constructor gives [None] for it. *)
Definition new (data : TypingsVersionsRaw) : option t :=
  let versions :=
    Array_sort SemVer.rcompare (imap parseKey (Object_keys data)) in
  entries ← mapM id
    (imap (fun i version =>
             raw ← Object_get data (keyOf version);
             Some (version, TypingsData.new raw (isZero i)))
       versions);
  Some {| map := Map_new entries; versions := versions |}.

Definition getAll (this : t) : list TypingsData.t :=
  Map_values (map this).

(** [this.map.get(this.versions[0])!]: [undefined] on an empty set. *)
Definition getLatest (this : t) : option TypingsData.t :=
  versions this !! 0 ≫= Map_get (map this).

Definition matches (version : DirectoryParsedTypingVersion) (v : SemVer.t)
  : bool :=
  (SemVer.major v =? dir_major version)%N
  && match dir_minor version with
     | None => true
     | Some minor => (SemVer.minor v =? minor)%N
     end.

Definition tryGetLatestMatch (this : t)
    (version : DirectoryParsedTypingVersion) : option TypingsData.t :=
  found ← Array_find (matches version) (versions this);
  Map_get (map this) found.

Definition getLatestMatch (this : t)
    (version : DirectoryParsedTypingVersion) (errorMessage : option string)
  : Exc TypingsData.t :=
  match tryGetLatestMatch this version with
  | None => Throw (CouldNotFindVersion version errorMessage)
  | Some data => Ok data
  end.

(** The result is [undefined] only for ["*"] on an empty set. *)
Definition get (this : t) (version : DependencyVersion)
    (errorMessage : option string) : Exc (option TypingsData.t) :=
  match version with
  | Star => Ok (getLatest this)
  | Version v => data <~ getLatestMatch this v errorMessage;; Ok (Some data)
  end.

(** [get(version)] when [version] is a member inherited from
    [Object.prototype]: it is not ["*"], and [v.major === version.major]
    compares a number with [undefined] for every [v], so nothing is found
    and [getLatestMatch] throws. *)
Definition getMember (this : t) : Exc (option TypingsData.t) :=
  match Array_find (fun _ => false) (versions this) with
  | Some found => Ok (Map_get (map this) found)
  | None => Throw CouldNotFindVersionUndefined
  end.

Definition tryGet (this : t) (version : DependencyVersion)
  : option TypingsData.t :=
  match version with
  | Star => getLatest this
  | Version v => tryGetLatestMatch this v
  end.

End TypingsVersions.

(** ** [NotNeededPackage] *)

Module NotNeededPackage.

(** A raw entry of [notNeededPackages.json]: an object whose values are
    strings, in property order. *)
Definition NotNeededPackageRaw : Type := list (string * string).

Record t := {
  name : string;
  libraryName : string;
  version : SemVer.t;
}.

(** Truthiness of a string: only the empty string is falsy. *)
Definition truthy (s : string) : bool := negb (String.eqb s "").

(** [["libraryName", "sourceRepoURL", "asOfVersion"].includes(key)] *)
Definition allowedKey (key : string) : bool :=
  existsb (String.eqb key) ["libraryName"; "sourceRepoURL"; "asOfVersion"].

(** The loop over [Object.keys(raw)]. *)
Fixpoint checkKeys (keys : list string) : Exc unit :=
  match keys with
  | [] => Ok tt
  | key :: rest =>
      if negb (allowedKey key) then Throw (UnexpectedKey key)
      else checkKeys rest
  end.

Section Construction.
(** [String.prototype.toLowerCase] *)
Variable toLowerCase : string -> string.
(** [new semver.SemVer(s)]: [None] when [semver] rejects the string. *)
Variable parseSemVer : string -> option SemVer.t.

(** The constructor; [asOfVersion] is [undefined] when the raw entry has
    no such property, and then the assertion fails: [undefined] is falsy. *)
Definition new (name libraryName : string) (asOfVersion : option string)
  : Exc t :=
  match asOfVersion with
  | None => Throw AssertionError
  | Some asOfVersion =>
      if truthy libraryName && truthy name && truthy asOfVersion
      then
        match parseSemVer asOfVersion with
        | Some version =>
            Ok {| name := name; libraryName := libraryName;
                  version := version |}
        | None => Throw (InvalidVersion asOfVersion)
        end
      else Throw AssertionError
  end.

Definition fromRaw (name : string) (raw : NotNeededPackageRaw) : Exc t :=
  if negb (String.eqb name (toLowerCase name))
  then Throw (NameNotLowerCase name)
  else
    _ <~ checkKeys (Object_keys raw);;
    match Object_get raw "libraryName" with
    | None => Throw TypeErrorUndefined
    | Some libraryName =>
        if negb (String.eqb libraryName (toLowerCase libraryName))
        then Throw (LibraryNameNotLowerCase name)
        else new name libraryName (Object_get raw "asOfVersion")
    end.

(** [readNotNeededPackages]: [entries] is [Object.entries] of the
    [packages] object read from [notNeededPackages.json]; [map] calls
    [fromRaw] on one entry after the other. *)
Fixpoint readNotNeededPackages (entries : list (string * NotNeededPackageRaw))
  : Exc (list t) :=
  match entries with
  | [] => Ok []
  | (name, raw) :: rest =>
      pkg <~ fromRaw name raw;;
      pkgs <~ readNotNeededPackages rest;;
      Ok (pkg :: pkgs)
  end.

(** [AllPackages.readSingleNotNeeded], on the same entries. *)
Definition readSingleNotNeeded (name' : string)
    (entries : list (string * NotNeededPackageRaw)) : Outcome t :=
  match readNotNeededPackages entries with
  | Throw e => Fails (Thrown e)
  | Ok notNeeded =>
      match Array_find (fun p => String.eqb (name p) name') notNeeded with
      | None => Fails (CannotFindNotNeeded name')
      | Some pkg => Returns pkg
      end
  end.
End Construction.

Definition major (this : t) : N := SemVer.major (version this).
Definition minor (this : t) : N := SemVer.minor (version this).
Definition isLatest (this : t) : bool := true.

(** The getters returning a list of strings.  A getter body either
    returns a value or reads another getter of [this]. *)
Inductive Getter := declaredModules | globals.

Inductive GetterBody :=
  | Return (value : list string)
  | ReadThis (getter : Getter).

Definition body (getter : Getter) (this : t) : GetterBody :=
  match getter with
  | declaredModules => Return []
  | globals => ReadThis globals
  end.

(** Reading a getter, big-step: the value it produces, if any. *)
Inductive Reads (this : t) : Getter -> list string -> Prop :=
  | Reads_return getter value :
      body getter this = Return value -> Reads this getter value
  | Reads_this getter getter' value :
      body getter this = ReadThis getter' ->
      Reads this getter' value -> Reads this getter value.

(** Reading a getter with a bound on the depth of nested reads. *)
Fixpoint read (fuel : nat) (getter : Getter) (this : t)
  : option (list string) :=
  match fuel with
  | O => None
  | S fuel' =>
      match body getter this with
      | Return value => Some value
      | ReadThis getter' => read fuel' getter' this
      end
  end.

End NotNeededPackage.

(** ** The registry ([AllPackages]) *)

(** Modelled from the spec: [mapValues] and [assertSorted] belong to
    [@definitelytyped/utils], which is not part of the sources at hand.
    [mapValues] builds the registry's mapping from package name to version
    set, one version set per logical package of the raw data, keeping the
    names and their order.  The value mapper is the [TypingsVersions]
    constructor, whence the [option]. *)
Definition mapValues {K V1 V2} (m : list (K * V1)) (valueMapper : V1 -> option V2)
  : option (list (K * V2)) :=
  mapM (fun kv => v ← valueMapper kv.2; Some (kv.1, v)) m.



(** Modelled from the spec: [assertDefined] and [unique] belong to
    [@definitelytyped/utils] as well.  [assertDefined(x)] returns [x] and
    fails for [undefined] (an unknown name); [unique(arr)] keeps one of
    each value of [arr], the first occurrence, in order. *)
Definition assertDefined {A} (x : option A) : Exc A :=
  match x with
  | Some a => Ok a
  | None => Throw AssertionError
  end.

Fixpoint uniqueFrom `{EqDecision A} (seen arr : list A) : list A :=
  match arr with
  | [] => []
  | x :: rest =>
      if decide (x ∈ seen) then uniqueFrom seen rest
      else x :: uniqueFrom (x :: seen) rest
  end.

Definition unique `{EqDecision A} (arr : list A) : list A :=
  uniqueFrom [] arr.

Module AllPackages.

(** [TypesDataFile], in property order. *)
Definition TypesDataFile : Type :=
  list (string * TypingsVersions.TypingsVersionsRaw).

Record t := {
  data : list (string * TypingsVersions.t);
  notNeeded : list NotNeededPackage.t;
}.

Definition from (data : TypesDataFile) (notNeeded : list NotNeededPackage.t)
  : option t :=
  data' ← mapValues (Map_new (Object_entries data)) TypingsVersions.new;
  Some {| data := data'; notNeeded := notNeeded |}.


(** [`${pkg.name} references this version of ${name} in its path mappings
    in tsconfig.json. If you are deleting this version, update
    ${pkg.name}’s path mappings accordingly.\n`] *)
Definition pathMappingsMessage (pkgName name : string) : string :=
  pkgName +:+ " references this version of " +:+ name
  +:+ " in its path mappings in tsconfig.json. If you are deleting this version, update "
  +:+ pkgName +:+ "’s path mappings accordingly." +:+ String "010"%char "".

Section Methods.
Variable this : t.

Definition tryResolve (dep : PackageId.t) : PackageId.t :=
  default dep
    (versions ← Map_get (data this) (mangle (PackageId.name dep));
     found ← TypingsVersions.tryGet versions (PackageId.version dep);
     Some (PackageIdWithDefiniteVersion.toPackageId (TypingsData.id found))).

Definition resolve (dep : PackageId.t) : Exc PackageIdWithDefiniteVersion.t :=
  match Map_get (data this) (mangle (PackageId.name dep)) with
  | None => Throw (NoTypingsFound (PackageId.name dep))
  | Some versions =>
      found <~ TypingsVersions.get versions (PackageId.version dep) None;;
      match found with
      | None => Throw TypeErrorUndefined
      | Some found => Ok (TypingsData.id found)
      end
  end.

Definition tryGetLatestVersion (packageName : string)
  : option TypingsData.t :=
  Map_get (data this) (mangle packageName) ≫= TypingsVersions.getLatest.

Definition tryGetTypingsData (id : PackageId.t) : option TypingsData.t :=
  versions ← Map_get (data this) (mangle (PackageId.name id));
  TypingsVersions.tryGet versions (PackageId.version id).

Definition hasTypingFor (dep : PackageId.t) : bool :=
  bool_decide (is_Some (tryGetTypingsData dep)).


Definition allNotNeeded : list NotNeededPackage.t := notNeeded this.

Section Dependencies.
Variable pkg : TypingsData.t.

(** The first loop of [allDependencyTypings], over
    [Object.entries(pkg.dependencies)]. *)
Fixpoint dependencyTypings (entries : list (string * DependencyVersion))
  : Gen (option TypingsData.t) :=
  match entries with
  | [] => GDone
  | (name, version) :: rest =>
      match Map_get (data this) (mangle name) with
      | Some versions =>
          Gen_yield
            (TypingsVersions.get versions version
               (match Object_read (TypingsData.pathMappings pkg) name with
                | Own _ | Inherited =>
                    Some (pathMappingsMessage (TypingsData.name pkg) name)
                | Undefined => None
                end))
            (dependencyTypings rest)
      | None => dependencyTypings rest
      end
  end.

(** The second loop, over [pkg.testDependencies]. *)
Fixpoint testDependencyTypings (names : list string)
  : Gen (option TypingsData.t) :=
  match names with
  | [] => GDone
  | name :: rest =>
      match Map_get (data this) (mangle name) with
      | Some versions =>
          Gen_yield
            (match Object_read (TypingsData.pathMappings pkg) name with
             | Own version =>
                 TypingsVersions.get versions (Version version) None
             | Inherited => TypingsVersions.getMember versions
             | Undefined => Ok (TypingsVersions.getLatest versions)
             end)
            (testDependencyTypings rest)
      | None => testDependencyTypings rest
      end
  end.

Definition allDependencyTypings : Gen (option TypingsData.t) :=
  Gen_seq
    (dependencyTypings (Object_entries (TypingsData.dependencies pkg)))
    (testDependencyTypings (TypingsData.testDependencies pkg)).
End Dependencies.

Definition getNotNeededPackage (name : string) : option NotNeededPackage.t :=
  Array_find (fun p => String.eqb (NotNeededPackage.name p) name)
    (notNeeded this).

Definition hasSeparateMinorVersions (name : string) : Exc bool :=
  versions <~ assertDefined (Map_get (data this) (mangle name));;
  let minors := TypingsData.minor <$> TypingsVersions.getAll versions in
  Ok (negb (length minors =? length (unique minors))).

Definition getLatestVersion (packageName : string) : Outcome TypingsData.t :=
  match tryGetLatestVersion packageName with
  | None => Fails (NoSuchPackage packageName)
  | Some latest => Returns latest
  end.

Definition getLatest (pkg : TypingsData.t) : Outcome TypingsData.t :=
  if TypingsData.isLatest pkg then Returns pkg
  else getLatestVersion (TypingsData.name pkg).

Definition getTypingsData (id : PackageId.t) : Outcome TypingsData.t :=
  match tryGetTypingsData id with
  | None => Fails (NoTypingsAvailable id)
  | Some pkg => Returns pkg
  end.
End Methods.

(** [readSingle], on the data file it reads.  [data[name]] may be a
    member inherited from [Object.prototype]; [Object.values] of it is
    empty.  For a package without any version [versions[0]] is
    [undefined], and the constructor of [PackageBase] fails reading
    [data.libraryName]. *)
Definition readSingle (data : TypesDataFile) (name : string)
  : Outcome TypingsData.t :=
  match Object_read data name with
  | Undefined => Fails (CantFindPackage name)
  | found =>
      let versions :=
        match found with
        | Own raw => raw.*2
        | _ => []
        end in
      if 1 <? length versions then Fails (MultipleVersions name)
      else match versions !! 0 with
           | Some version => Returns (TypingsData.new version true)
           | None => Fails (Thrown TypeErrorUndefined)
           end
  end.

End AllPackages.

(** ** Names and paths *)

Section Settings.
(** [scopeName] and [typesDirectoryName] of [lib/settings], and
    [parseVersionFromDirectoryName] of [lib/definition-parser]. *)
Variable scopeName : string.
Variable typesDirectoryName : string.
Variable parseVersionFromDirectoryName :
  string -> option DirectoryParsedTypingVersion.

Definition getFullNpmName (packageName : string) : string :=
  "@" +:+ scopeName +:+ "/" +:+ mangle packageName.

Definition getDependencyFromFile (file : string) : option PackageId.t :=
  let parts := JsString.split "/" file in
  if length parts <=? 2 then None
  else
    match parts with
    | typesDirName :: name :: subDirName :: _ =>
        if negb (String.eqb typesDirName typesDirectoryName) then None
        else
          match (if negb (String.eqb subDirName "")
                 then parseVersionFromDirectoryName subDirName
                 else None) with
          | Some version =>
              Some {| PackageId.name := name;
                      PackageId.version := Version version |}
          | None =>
              Some {| PackageId.name := name; PackageId.version := Star |}
          end
    | _ => None
    end.
End Settings.

(** ** Notions used in the statements *)

(** The lexicographic order on [(major, minor)] pairs. *)
Definition VersionKey_le (key key' : TypingsVersions.VersionKey) : Prop :=
  (key.1 < key'.1)%N \/ (key.1 = key'.1 /\ (key.2 <= key'.2)%N).

(** The header version of every raw entry is the key it is stored under,
    as the parser of the definitions writes the data. *)
Definition headersAgree (data : TypingsVersions.TypingsVersionsRaw) : Prop :=
  forall key raw,
    Object_get data key = Some raw ->
    (TypingsDataRaw.libraryMajorVersion raw,
     TypingsDataRaw.libraryMinorVersion raw) = key.

(** Every version key of a raw mapping, and of a data file, is made of
    numbers [semver] accepts. *)
Definition safeKeys (data : TypingsVersions.TypingsVersionsRaw) : Prop :=
  Forall (fun key : TypingsVersions.VersionKey =>
            (key.1 <= 9007199254740991)%N /\
            (key.2 <= 9007199254740991)%N)
    (Object_keys data).

Definition safeFile (file : AllPackages.TypesDataFile) : Prop :=
  Forall (fun entry : string * TypingsVersions.TypingsVersionsRaw =>
            safeKeys entry.2)
    file.

(** A key under which a record answers the requested version: any key for
    the wildcard, else a key of the requested major and, if a minor is
    requested, that minor. *)
Definition requestedKey (version : DependencyVersion)
    (key : TypingsVersions.VersionKey) : Prop :=
  match version with
  | Star => True
  | Version version =>
      key.1 = dir_major version /\
      (forall minor, dir_minor version = Some minor -> key.2 = minor)
  end.

(** The trace of a generator that yields the results of [requests] one
    after the other and stops at the first that throws. *)
Fixpoint Gen_of_results {A} (requests : list (Exc A)) : Gen A :=
  match requests with
  | [] => GDone
  | Ok a :: rest => GYield a (Gen_of_results rest)
  | Throw e :: _ => GThrow e
  end.

(** What a generator yields before it ends. *)
Fixpoint Gen_yields {A} (g : Gen A) : list A :=
  match g with
  | GDone => []
  | GYield a rest => a :: Gen_yields rest
  | GThrow _ => []
  end.

(** The dependency records of [pkg] as the specification lists them: one
    request per declared dependency whose name has a version set, answered
    by that version set for the declared version; then one request per test
    dependency whose name has a version set, answered for the path-mapping
    override of that name if there is one and by the latest record
    otherwise. *)
Definition dependencyRequests (this : AllPackages.t) (pkg : TypingsData.t)
  : list (Exc (option TypingsData.t)) :=
  omap (fun entry : string * DependencyVersion =>
          versions ← Map_get (AllPackages.data this) (mangle entry.1);
          Some (TypingsVersions.get versions entry.2
                  (Object_get (TypingsData.pathMappings pkg) entry.1
                     ≫= fun _ => Some (AllPackages.pathMappingsMessage
                                        (TypingsData.name pkg) entry.1))))
       (TypingsData.dependencies pkg)
  ++
  omap (fun name : string =>
          versions ← Map_get (AllPackages.data this) (mangle name);
          Some (match Object_get (TypingsData.pathMappings pkg) name with
                | Some version =>
                    TypingsVersions.get versions (Version version) None
                | None => Ok (TypingsVersions.getLatest versions)
                end))
       (TypingsData.testDependencies pkg).

(** ** Sample data *)

Definition sampleRaw (name : string) (major minor : N) : TypingsDataRaw.t :=
  {| TypingsDataRaw.libraryName := name;
     TypingsDataRaw.typingsPackageName := name;
     TypingsDataRaw.dependencies := [];
     TypingsDataRaw.testDependencies := [];
     TypingsDataRaw.pathMappings := [];
     TypingsDataRaw.libraryVersionDirectoryName := None;
     TypingsDataRaw.libraryMajorVersion := major;
     TypingsDataRaw.libraryMinorVersion := minor;
     TypingsDataRaw.files := [];
     TypingsDataRaw.globals := [];
     TypingsDataRaw.declaredModules := [] |}.

(** [{"1.0": A, "2.3": B, "2.1": C}] *)
Definition widget : TypingsVersions.TypingsVersionsRaw :=
  [ ((1, 0)%N, sampleRaw "widget" 1 0);
    ((2, 3)%N, sampleRaw "widget" 2 3);
    ((2, 1)%N, sampleRaw "widget" 2 1) ].

(** [{"foo": {"1.4": ..., "2.0": ...}, "bar": {"3.1": ..., "2.9": ...},
    "scope__pkg": {"1.0": ...}}]; the entry of [scope__pkg] is stored under
    the directory key 1.0 while its header names version 7.2. *)
Definition sampleFile : AllPackages.TypesDataFile :=
  [ ("bar", [ ((2, 9)%N, sampleRaw "bar" 2 9);
              ((3, 1)%N, sampleRaw "bar" 3 1) ]);
    ("foo", [ ((1, 4)%N, sampleRaw "foo" 1 4);
              ((2, 0)%N, sampleRaw "foo" 2 0) ]);
    ("scope__pkg", [ ((1, 0)%N, sampleRaw "scope__pkg" 7 2) ]) ].

(** A package depending on [{"foo": {major: 1}, "ambient": "*"}], with the
    test dependencies ["bar"] and ["@scope/pkg"], the latter with the path
    mapping [{major: 1, minor: 0}]. *)
Definition samplePackage : TypingsData.t :=
  TypingsData.new
    {| TypingsDataRaw.libraryName := "client";
       TypingsDataRaw.typingsPackageName := "client";
       TypingsDataRaw.dependencies :=
         [ ("foo", Version {| dir_major := 1; dir_minor := None |});
           ("ambient", Star) ];
       TypingsDataRaw.testDependencies := ["bar"; "@scope/pkg"];
       TypingsDataRaw.pathMappings :=
         [ ("@scope/pkg", {| dir_major := 1; dir_minor := Some 0%N |}) ];
       TypingsDataRaw.libraryVersionDirectoryName := None;
       TypingsDataRaw.libraryMajorVersion := 1;
       TypingsDataRaw.libraryMinorVersion := 0;
       TypingsDataRaw.files := [];
       TypingsDataRaw.globals := [];
       TypingsDataRaw.declaredModules := [] |}
    true.

(** A registry file with a package named ["constructor"], and a package
    that declares it as a test dependency, without any path mapping. *)
Definition constructorFile : AllPackages.TypesDataFile :=
  [ ("constructor", [ ((1, 0)%N, sampleRaw "constructor" 1 0) ]) ].

Definition constructorClient : TypingsData.t :=
  TypingsData.new
    {| TypingsDataRaw.libraryName := "client";
       TypingsDataRaw.typingsPackageName := "client";
       TypingsDataRaw.dependencies := [];
       TypingsDataRaw.testDependencies := ["constructor"];
       TypingsDataRaw.pathMappings := [];
       TypingsDataRaw.libraryVersionDirectoryName := None;
       TypingsDataRaw.libraryMajorVersion := 1;
       TypingsDataRaw.libraryMinorVersion := 0;
       TypingsDataRaw.files := [];
       TypingsDataRaw.globals := [];
       TypingsDataRaw.declaredModules := [] |}
    true.

(** The registry built from [sampleFile], and its version set of
    [scope__pkg]. *)
Definition sampleRegistry : AllPackages.t :=
  Eval vm_compute in
    default {| AllPackages.data := []; AllPackages.notNeeded := [] |}
      (AllPackages.from sampleFile []).

Definition sampleVersions : TypingsVersions.t :=
  Eval vm_compute in
    default {| TypingsVersions.map := []; TypingsVersions.versions := [] |}
      (TypingsVersions.new [ ((1, 0)%N, sampleRaw "scope__pkg" 7 2) ]).

(** Sample instances of the two library functions [NotNeededPackage]
    relies on: lower-casing of ASCII letters, and the plain
    MAJOR.MINOR.PATCH versions among those [semver] accepts. *)
Definition sampleLowerChar (c : ascii) : ascii :=
  let n := nat_of_ascii c in
  if (65 <=? n) && (n <=? 90) then ascii_of_nat (n + 32) else c.

Fixpoint sampleToLowerCase (s : string) : string :=
  match s with
  | EmptyString => EmptyString
  | String c s' => String (sampleLowerChar c) (sampleToLowerCase s')
  end.

(** The parts of [s] between the dots, the part read so far in [part]. *)
Fixpoint sampleParts (part s : string) : list string :=
  match s with
  | EmptyString => [part]
  | String c s' =>
      if Ascii.eqb c "." then part :: sampleParts EmptyString s'
      else sampleParts (part +:+ String c EmptyString) s'
  end.

Fixpoint sampleDigits (acc : N) (s : string) : option N :=
  match s with
  | EmptyString => Some acc
  | String c s' =>
      let n := nat_of_ascii c in
      if (48 <=? n) && (n <=? 57)
      then sampleDigits (10 * acc + N.of_nat (n - 48))%N s'
      else None
  end.

(** A numeric identifier: digits, without a leading zero. *)
Definition sampleNumber (s : string) : option N :=
  match s with
  | EmptyString => None
  | String "0" (String _ _) => None
  | _ => sampleDigits 0 s
  end.

Definition sampleParseSemVer (s : string) : option SemVer.t :=
  match sampleParts EmptyString s with
  | [major; minor; patch] =>
      major ← sampleNumber major;
      minor ← sampleNumber minor;
      patch ← sampleNumber patch;
      Some {| SemVer.ref := 0; SemVer.major := major;
              SemVer.minor := minor; SemVer.patch := patch |}
  | _ => None
  end.

(** A sample instance of [parseVersionFromDirectoryName]: ["v3"] is
    major 3, ["v3.1"] is major 3 and minor 1. *)
Definition sampleParseVersionFromDirectoryName (directoryName : string)
  : option DirectoryParsedTypingVersion :=
  match directoryName with
  | String "v" digits =>
      match sampleParts EmptyString digits with
      | [major] =>
          major ← sampleNumber major;
          Some {| dir_major := major; dir_minor := None |}
      | [major; minor] =>
          major ← sampleNumber major;
          minor ← sampleNumber minor;
          Some {| dir_major := major; dir_minor := Some minor |}
      | _ => None
      end
  | _ => None
  end.

(** The integers a JavaScript number holds exactly. *)
Definition isSafeInteger (n : N) : Prop := (n <= 9007199254740991)%N.

Definition safeVersion (version : DependencyVersion) : Prop :=
  match version with
  | Star => True
  | Version version =>
      isSafeInteger (dir_major version) /\
      match dir_minor version with
      | None => True
      | Some minor => isSafeInteger minor
      end
  end.

(* ================================================================== *)
(** * Part II: properties *)
(* ================================================================== *)

(** ** The name mangler *)

Section MangleFacts.
Import JsString.

Lemma append_cons c s1 s2 : String c s1 +:+ s2 = String c (s1 +:+ s2).
Proof. reflexivity. Qed.

Lemma append_nil s : "" +:+ s = s.
Proof. reflexivity. Qed.

Lemma slash_eqb (c : ascii) :
  Ascii.eqb "/" c = true <-> c = "/"%char.
Proof. rewrite Ascii.eqb_eq. split; congruence. Qed.

Lemma replace_separator_cons c s :
  replace "/" "__" (String c s) =
  if Ascii.eqb "/" c then "__" +:+ s else String c (replace "/" "__" s).
Proof.
  cbn [replace String.prefix String.length slice].
  destruct (ascii_dec "/" c) as [<-|Hne].
  - destruct s; reflexivity.
  - destruct (Ascii.eqb "/" c) eqn:E; [|reflexivity].
    apply Ascii.eqb_eq in E. contradiction.
Qed.

Lemma replace_separator_nil : replace "/" "__" "" = "".
Proof. reflexivity. Qed.

Lemma count_replace_separator s :
  count "/" (replace "/" "__" s) = pred (count "/" s).
Proof.
  induction s as [|c s IH]; [reflexivity|].
  rewrite replace_separator_cons. cbn [count].
  destruct (Ascii.eqb "/" c) eqn:E.
  - reflexivity.
  - cbn [count]. rewrite E. simpl. exact IH.
Qed.

Lemma length_replace_separator s :
  String.length (replace "/" "__" s) =
  String.length s + (if decide (count "/" s = 0) then 0 else 1).
Proof.
  induction s as [|c s IH]; [reflexivity|].
  rewrite replace_separator_cons. cbn [count].
  destruct (Ascii.eqb "/" c) eqn:E.
  - rewrite !append_cons, append_nil. cbn. repeat case_decide; lia.
  - cbn [String.length]. rewrite IH. simpl. repeat case_decide; lia.
Qed.

Lemma replace_separator_same s :
  replace "/" "__" s = s <-> count "/" s = 0.
Proof.
  split.
  - intros Heq. pose proof (length_replace_separator s) as Hlen.
    rewrite Heq in Hlen. destruct (decide (count "/" s = 0)); [done|lia].
  - induction s as [|c s IH]; [reflexivity|].
    rewrite replace_separator_cons. cbn [count].
    destruct (Ascii.eqb "/" c); [simpl; lia|].
    simpl. intros H. by rewrite IH.
Qed.

Lemma replace_separator_split scope rest :
  count "/" scope = 0 ->
  replace "/" "__" (scope +:+ "/" +:+ rest) = scope +:+ "__" +:+ rest.
Proof.
  induction scope as [|c scope IH]; intros Hc.
  - rewrite !append_nil, append_cons, replace_separator_cons. reflexivity.
  - rewrite append_cons, replace_separator_cons.
    cbn [count] in Hc. destruct (Ascii.eqb "/" c); [simpl in Hc; lia|].
    simpl in Hc. rewrite IH by done. by rewrite append_cons.
Qed.

Lemma count_app c s1 s2 : count c (s1 +:+ s2) = count c s1 + count c s2.
Proof.
  induction s1 as [|d s1 IH]; [done|].
  rewrite append_cons. cbn [count]. rewrite IH. lia.
Qed.

Lemma startsWith_scope s :
  startsWith s "@" = true <-> exists s', s = String "@" s'.
Proof.
  unfold startsWith. destruct s as [|c s]; cbn [String.prefix].
  - split; [discriminate|]. intros [s' Hs]. discriminate.
  - destruct (ascii_dec "@" c) as [<-|Hne].
    + split; [eauto|]. intros _. by destruct s.
    + split; [discriminate|]. intros [s' Hs]. congruence.
Qed.

(** What [mangle] computes, by cases on the shape of the name. *)
Lemma mangle_scoped_unfold s :
  mangle (String "@" s) =
  if decide (count "/" s = 0) then String "@" s else replace "/" "__" s.
Proof.
  unfold getMangledNameForScopedPackage.
  replace (startsWith (String "@" s) "@") with true
    by (symmetry; apply startsWith_scope; eauto).
  rewrite replace_separator_cons.
  change (Ascii.eqb "/" "@") with false. cbv iota.
  destruct (decide (count "/" s = 0)) as [H0|Hn].
  - apply replace_separator_same in H0. rewrite H0.
    by rewrite String.eqb_refl.
  - destruct (String.eqb _ _) eqn:E; [|reflexivity].
    apply String.eqb_eq in E. injection E as E.
    by apply replace_separator_same in E.
Qed.

Lemma mangle_unscoped s : startsWith s "@" = false -> mangle s = s.
Proof. unfold getMangledNameForScopedPackage. by intros ->. Qed.

Lemma startsWith_not_scope c s :
  c <> "@"%char -> startsWith (String c s) "@" = false.
Proof.
  intros Hc. destruct (startsWith (String c s) "@") eqn:E; [|done].
  apply startsWith_scope in E as [s' Hs]. congruence.
Qed.

Lemma startsWith_two_scopes d s :
  startsWith (String "@" (String d s)) "@@" = true <-> d = "@"%char.
Proof.
  unfold startsWith. cbn [String.prefix].
  destruct (ascii_dec "@" "@"); [|done].
  destruct (ascii_dec "@" d) as [<-|Hne].
  - split; [done|]. intros _. by destruct s.
  - split; [discriminate|]. congruence.
Qed.

Lemma replaceAllChar_no_separator s :
  count "/" s = 0 -> replaceAllChar "/" "__" s = s.
Proof.
  induction s as [|c s IH]; [done|]. cbn [count replaceAllChar].
  destruct (Ascii.eqb "/" c); [simpl; lia|].
  simpl. intros H. rewrite IH by done. reflexivity.
Qed.

Lemma replaceAllChar_one_separator s :
  count "/" s <= 1 -> replaceAllChar "/" "__" s = replace "/" "__" s.
Proof.
  induction s as [|c s IH]; [done|].
  rewrite replace_separator_cons. cbn [count replaceAllChar].
  destruct (Ascii.eqb "/" c).
  - intros H. rewrite replaceAllChar_no_separator by lia. reflexivity.
  - simpl. intros H. rewrite IH by done. reflexivity.
Qed.

Lemma separator_split s :
  count "/" s <> 0 ->
  exists scope rest, s = scope +:+ "/" +:+ rest /\ count "/" scope = 0.
Proof.
  induction s as [|c s IH]; [done|]. cbn [count].
  destruct (Ascii.eqb "/" c) eqn:E.
  - intros _. apply slash_eqb in E as ->. by exists "", s.
  - simpl. intros (scope & rest & -> & Hscope)%IH.
    exists (String c scope), rest. split; [done|].
    cbn [count]. by rewrite E.
Qed.

Example mangle_scoped : mangle "@scope/pkg" = "scope__pkg".
Proof. reflexivity. Qed.

Example mangle_plain : mangle "jquery" = "jquery".
Proof. reflexivity. Qed.

Example mangle_two_separators : mangle "@a/b/c" = "a__b/c".
Proof. reflexivity. Qed.

(** The half of the stated rule that holds: with exactly one separator,
    replacing the first separator replaces the separator. *)
Lemma mangle_one_separator name :
  startsWith name "@" = true -> count "/" name = 1 ->
  mangle name = slice 1 (replaceAllChar "/" "__" name).
Proof.
  intros [s ->]%startsWith_scope Hc.
  rewrite mangle_scoped_unfold. cbn [count] in Hc.
  change (Ascii.eqb "/" "@") with false in Hc. simpl in Hc.
  destruct (decide _) as [H0|_]; [lia|].
  cbn [replaceAllChar]. change (Ascii.eqb "/" "@") with false. cbv iota.
  rewrite append_cons, append_nil. cbn [slice].
  symmetry. apply replaceAllChar_one_separator. lia.
Qed.

(** C5, as stated, fails: a scoped name with two separators is neither
    a name "with exactly one separator" nor returned unchanged. *)
Lemma mangle_exactly_one_separator_counterexample :
  ~ (forall name,
       (startsWith name "@" = true /\ count "/" name = 1 ->
        mangle name = slice 1 (replaceAllChar "/" "__" name)) /\
       (~ (startsWith name "@" = true /\ count "/" name = 1) ->
        mangle name = name)).
Proof.
  intros H. destruct (H "@a/b/c") as [_ Hother].
  assert (mangle "@a/b/c" = "@a/b/c") as Heq.
  { apply Hother. intros [_ Hc]. vm_compute in Hc. discriminate. }
  vm_compute in Heq. discriminate.
Qed.

(** C5 (amended): a name that starts with the scope marker and holds a
    separator reads "@scope/rest" with no separator in [scope]; it is
    mangled to "scope__rest" whatever [rest] holds: the first separator is
    replaced and the scope marker dropped.  A name that does not start with
    the scope marker, or that has no separator, is returned unchanged. *)
Theorem mangle_first_separator name :
  (startsWith name "@" = true -> count "/" name <> 0 ->
   exists scope rest,
     name = "@" +:+ scope +:+ "/" +:+ rest /\ count "/" scope = 0) /\
  (forall scope rest,
      name = "@" +:+ scope +:+ "/" +:+ rest -> count "/" scope = 0 ->
      mangle name = scope +:+ "__" +:+ rest) /\
  (startsWith name "@" = false \/ count "/" name = 0 -> mangle name = name).
Proof.
  split.
  { intros [s ->]%startsWith_scope Hcount. cbn [count] in Hcount.
    change (Ascii.eqb "/" "@") with false in Hcount. simpl in Hcount.
    destruct (separator_split s Hcount) as (scope & rest & -> & Hscope).
    by exists scope, rest. }
  split.
  - intros scope rest -> Hscope.
    rewrite append_cons, append_nil, mangle_scoped_unfold.
    destruct (decide _) as [H0|_].
    + rewrite count_app, append_cons, append_nil in H0.
      cbn [count] in H0. change (Ascii.eqb "/" "/") with true in H0.
      cbv iota in H0. lia.
    + by apply replace_separator_split.
  - intros [Hs|Hc]; [by apply mangle_unscoped|].
    destruct (startsWith name "@") eqn:E; [|by apply mangle_unscoped].
    apply startsWith_scope in E as [s ->]. rewrite mangle_scoped_unfold.
    cbn [count] in Hc. change (Ascii.eqb "/" "@") with false in Hc.
    simpl in Hc. by rewrite decide_True.
Qed.

Lemma mangle_first_separator_witness :
  mangle "@a/b/c" = "a__b/c" /\ mangle "jquery" = "jquery".
Proof.
  split.
  - apply (proj1 (proj2 (mangle_first_separator "@a/b/c")) "a" "b/c");
      reflexivity.
  - apply (proj2 (proj2 (mangle_first_separator "jquery"))). left.
    reflexivity.
Defined.

(** C6, as stated, fails: after mangling "@@a/b/c" the result "@a__b/c"
    is again a scoped name with a separator. *)
Lemma mangle_idempotent_counterexample :
  ~ (forall x, mangle (mangle x) = mangle x).
Proof. intros H. specialize (H "@@a/b/c"). vm_compute in H. discriminate. Qed.

(** C6 (amended): mangling is idempotent on every string that does not
    both start with two scope markers and hold two or more separators. *)
Theorem mangle_idempotent x :
  startsWith x "@@" = false \/ count "/" x <= 1 ->
  mangle (mangle x) = mangle x.
Proof.
  intros Hx. destruct x as [|c s]; [reflexivity|].
  destruct (ascii_dec c "@") as [->|Hc].
  2: { pose proof (mangle_unscoped _ (startsWith_not_scope c s Hc)) as Hm.
       by rewrite !Hm. }
  rewrite mangle_scoped_unfold.
  destruct (decide (count "/" s = 0)) as [H0|Hn].
  { rewrite mangle_scoped_unfold. by rewrite decide_True. }
  destruct s as [|d s']; [done|].
  rewrite replace_separator_cons.
  destruct (Ascii.eqb "/" d) eqn:Ed.
  { apply mangle_unscoped. reflexivity. }
  destruct (ascii_dec d "@") as [->|Hd].
  - destruct Hx as [Hx|Hx].
    + pose proof (proj2 (startsWith_two_scopes "@" s') eq_refl). congruence.
    + rewrite mangle_scoped_unfold, count_replace_separator.
      cbn [count] in Hx, Hn.
      change (Ascii.eqb "/" "@") with false in Hx, Hn. simpl in Hx, Hn.
      rewrite decide_True by lia. reflexivity.
  - apply mangle_unscoped. by apply startsWith_not_scope.
Qed.

Lemma mangle_idempotent_witness :
  mangle (mangle "@scope/pkg") = mangle "@scope/pkg".
Proof. apply mangle_idempotent. left. reflexivity. Defined.

(** The amendment is tight: beyond it idempotence always fails. *)
Lemma mangle_not_idempotent x :
  startsWith x "@@" = true -> 2 <= count "/" x ->
  mangle (mangle x) <> mangle x.
Proof.
  intros Hs Hc.
  assert (exists s, x = String "@" (String "@" s)) as [s ->].
  { unfold startsWith in Hs.
    destruct x as [|c s]; cbn [String.prefix] in Hs; [discriminate|].
    destruct (ascii_dec "@" c) as [<-|]; [|discriminate].
    destruct s as [|d s]; cbn [String.prefix] in Hs; [discriminate|].
    destruct (ascii_dec "@" d) as [<-|]; [|discriminate]. eauto. }
  cbn [count] in Hc. change (Ascii.eqb "/" "@") with false in Hc.
  simpl in Hc.
  rewrite mangle_scoped_unfold. cbn [count].
  change (Ascii.eqb "/" "@") with false. cbv iota. rewrite Nat.add_0_l.
  rewrite decide_False by lia.
  rewrite replace_separator_cons. change (Ascii.eqb "/" "@") with false.
  cbv iota. rewrite mangle_scoped_unfold, count_replace_separator.
  rewrite decide_False by lia.
  intros Heq. apply (f_equal (count "/")) in Heq.
  cbn [count] in Heq. rewrite !count_replace_separator in Heq.
  change (Ascii.eqb "/" "@") with false in Heq. cbv iota in Heq. lia.
Qed.

End MangleFacts.

(** ** Objects and maps *)

Section ContainerFacts.
Context {K V : Type} `{EqDecision K}.
Implicit Types (m : list (K * V)) (k : K) (v : V).

Lemma Object_get_Some m k v :
  Object_get m k = Some v -> (k, v) ∈ m.
Proof.
  induction m as [|[k' v'] m IH]; simpl; [done|].
  case_decide as Hk.
  - intros [= ->]. subst. left.
  - intros Hm. right. auto.
Qed.

Lemma Object_get_is_Some m k :
  k ∈ Object_keys m -> is_Some (Object_get m k).
Proof.
  unfold Object_keys. induction m as [|[k' v'] m IH]; simpl.
  - by intros ?%elem_of_nil.
  - case_decide as Hk; [eauto|].
    intros [?|?]%elem_of_cons; [congruence|auto].
Qed.

Lemma Object_get_key m k v : Object_get m k = Some v -> k ∈ Object_keys m.
Proof.
  intros Hm%Object_get_Some. unfold Object_keys.
  apply list_elem_of_fmap. by exists (k, v).
Qed.

(** With distinct keys, the entry at any position is the one found. *)
Lemma Object_get_lookup m i k v :
  NoDup (m.*1) -> m !! i = Some (k, v) -> Object_get m k = Some v.
Proof.
  revert i. induction m as [|[k' v'] m IH]; intros i Hnd Hi; [done|].
  apply NoDup_cons in Hnd as [Hk' Hnd]. simpl.
  destruct i as [|i]; simpl in Hi.
  - injection Hi as -> ->. by rewrite decide_True.
  - rewrite decide_False; [by eapply IH|].
    intros ->. apply Hk'. apply list_elem_of_fmap.
    exists (k, v). split; [done|]. by eapply list_elem_of_lookup_2.
Qed.

Lemma Map_set_fresh m k v : k ∉ m.*1 -> Map_set m k v = m ++ [(k, v)].
Proof.
  induction m as [|[k' v'] m IH]; simpl; [done|].
  intros Hk. apply not_elem_of_cons in Hk as [Hne Hk].
  rewrite decide_False by done. by rewrite IH.
Qed.

Lemma Map_new_app (acc entries : list (K * V)) :
  NoDup ((acc ++ entries).*1) ->
  foldl (fun m kv => Map_set m kv.1 kv.2) acc entries = acc ++ entries.
Proof.
  revert acc. induction entries as [|[k v] entries IH]; intros acc Hnd; simpl.
  - by rewrite app_nil_r.
  - rewrite Map_set_fresh.
    + rewrite IH; rewrite <- app_assoc; done.
    + rewrite fmap_app in Hnd. apply NoDup_app in Hnd as (_ & Hdis & _).
      intros Hk. apply (Hdis k Hk). simpl. left.
Qed.

(** A [Map] built from entries with distinct keys holds exactly these
    entries, in order. *)
Lemma Map_new_NoDup (entries : list (K * V)) :
  NoDup (entries.*1) -> Map_new entries = entries.
Proof. intros Hnd. unfold Map_new. by rewrite Map_new_app. Qed.

End ContainerFacts.

(** ** The order of semantic versions *)

Section SemVerFacts.
Import SemVer.

Lemma compare_le_0 a b :
  (compare a b <= 0)%Z <->
  (major a < major b \/
   (major a = major b /\
    (minor a < minor b \/ (minor a = minor b /\ patch a <= patch b))))%N.
Proof.
  unfold compare, compareMain, compareIdentifiers, or_else.
  repeat match goal with
         | |- context [N.eqb ?x ?y] => destruct (N.eqb_spec x y)
         | |- context [N.ltb ?x ?y] => destruct (N.ltb_spec x y)
         end; simpl; lia.
Qed.

#[local] Instance rcompare_total : Total (sorts_before rcompare).
Proof.
  intros a b. unfold sorts_before, rcompare. rewrite !compare_le_0. lia.
Qed.

#[local] Instance rcompare_transitive : Transitive (sorts_before rcompare).
Proof.
  intros a b c. unfold sorts_before, rcompare. rewrite !compare_le_0. lia.
Qed.

(** Between parsed keys, sorting before means holding the newer key. *)
Lemma sorts_before_keys v w :
  patch v = 0%N -> patch w = 0%N ->
  sorts_before rcompare v w <->
  VersionKey_le (TypingsVersions.keyOf w) (TypingsVersions.keyOf v).
Proof.
  intros Hv Hw. unfold sorts_before, rcompare, VersionKey_le.
  rewrite compare_le_0. simpl. lia.
Qed.

End SemVerFacts.

(** ** The version set *)

Section TypingsVersionsFacts.
Import TypingsVersions.
#[local] Existing Instance rcompare_total.
#[local] Existing Instance rcompare_transitive.

(** The [versions] array of the set built from [data]. *)
Local Abbreviation sortedVersions data :=
  (Array_sort SemVer.rcompare (imap parseKey (Object_keys data))).

Lemma parsed_NoDup (keys : list VersionKey) : NoDup (imap parseKey keys).
Proof.
  apply NoDup_alt. intros i j v Hi Hj.
  apply list_lookup_imap_Some in Hi as (ki & _ & ->).
  apply list_lookup_imap_Some in Hj as (kj & _ & Hv).
  by injection Hv.
Qed.

Lemma sortedVersions_Permutation (data : TypingsVersionsRaw) :
  sortedVersions data ≡ₚ imap parseKey (Object_keys data).
Proof. apply merge_sort_Permutation. Qed.

Lemma sortedVersions_NoDup (data : TypingsVersionsRaw) :
  NoDup (sortedVersions data).
Proof. rewrite sortedVersions_Permutation. apply parsed_NoDup. Qed.

Lemma sortedVersions_elem_of (data : TypingsVersionsRaw) v :
  v ∈ sortedVersions data ->
  keyOf v ∈ Object_keys data /\ SemVer.patch v = 0%N.
Proof.
  rewrite sortedVersions_Permutation.
  intros (i & key & -> & Hkey)%elem_of_lookup_imap.
  split; [|done]. destruct key. by eapply list_elem_of_lookup_2.
Qed.

Lemma sortedVersions_key (data : TypingsVersionsRaw) key :
  key ∈ Object_keys data -> exists v, v ∈ sortedVersions data /\ keyOf v = key.
Proof.
  intros [i Hi]%list_elem_of_lookup_1. exists (parseKey i key). split.
  - rewrite sortedVersions_Permutation. by apply elem_of_lookup_imap_2.
  - by destruct key.
Qed.

Lemma sortedVersions_sorted (data : TypingsVersionsRaw) i j v w :
  i <= j ->
  sortedVersions data !! i = Some v -> sortedVersions data !! j = Some w ->
  VersionKey_le (keyOf w) (keyOf v).
Proof.
  intros Hij Hi Hj.
  destruct (sortedVersions_elem_of data v) as [_ Hv];
    [by eapply list_elem_of_lookup_2|].
  destruct (sortedVersions_elem_of data w) as [_ Hw];
    [by eapply list_elem_of_lookup_2|].
  apply sorts_before_keys; [done..|].
  destruct (decide (i = j)) as [->|Hne].
  { assert (v = w) as -> by congruence.
    destruct (total (sorts_before SemVer.rcompare) w w); done. }
  pose proof (StronglySorted_merge_sort (sorts_before SemVer.rcompare)
                (imap parseKey (Object_keys data))) as Hsorted.
  fold (Array_sort SemVer.rcompare (imap parseKey (Object_keys data)))
    in Hsorted.
  apply (StronglySorted_app_1_elem_of _ (take j (sortedVersions data))
           (drop j (sortedVersions data))).
  - by rewrite take_drop.
  - apply list_elem_of_lookup. exists i. rewrite lookup_take_lt by lia. done.
  - apply list_elem_of_lookup. exists 0. by rewrite lookup_drop, Nat.add_0_r.
Qed.

(** The constructor always builds a set: its [versions] are the parsed
    keys, sorted; its [map] pairs the version at each position with the
    record built from the raw entry stored under that version's key,
    flagged latest at position 0 only. *)
Lemma new_spec (data : TypingsVersionsRaw) :
  exists this,
    new data = Some this /\
    versions this = sortedVersions data /\
    (map this).*1 = versions this /\
    (forall i v, versions this !! i = Some v ->
       exists raw, Object_get data (keyOf v) = Some raw /\
         map this !! i = Some (v, TypingsData.new raw (isZero i))).
Proof.
  unfold new.
  set (f := fun (i : nat) (version : SemVer.t) =>
              raw ← Object_get data (keyOf version);
              Some (version, TypingsData.new raw (isZero i))).
  assert (is_Some (mapM id (imap f (sortedVersions data))))
    as [entries Hentries].
  { apply mapM_is_Some, Forall_lookup. intros i o Hi.
    apply list_lookup_imap_Some in Hi as (v & Hv & ->).
    destruct (sortedVersions_elem_of data v) as [Hkey _];
      [by eapply list_elem_of_lookup_2|].
    destruct (Object_get_is_Some _ _ Hkey) as [raw Hraw].
    unfold f, compose. simpl. rewrite Hraw. by eexists. }
  rewrite Hentries. simpl. eexists. split; [done|]. simpl.
  apply mapM_Some in Hentries.
  assert (forall i v, sortedVersions data !! i = Some v ->
            exists raw, Object_get data (keyOf v) = Some raw /\
              entries !! i = Some (v, TypingsData.new raw (isZero i)))
    as Hat.
  { intros i v Hv.
    destruct (Forall2_lookup_l _ _ _ i (f i v) Hentries)
      as (e & He & Hfe).
    { rewrite list_lookup_imap, Hv. done. }
    unfold f in Hfe. simpl in Hfe.
    destruct (Object_get data (keyOf v)) as [raw|]; [|done].
    simpl in Hfe. injection Hfe as <-. eauto. }
  assert (entries.*1 = sortedVersions data) as Hfst.
  { apply list_eq. intros i. rewrite list_lookup_fmap.
    destruct (sortedVersions data !! i) as [v|] eqn:Hv.
    - destruct (Hat i v Hv) as (raw & _ & ->). done.
    - apply lookup_ge_None in Hv. apply Forall2_length in Hentries.
      rewrite length_imap in Hentries.
      rewrite (proj2 (lookup_ge_None entries i)); [done|lia]. }
  rewrite Map_new_NoDup by (rewrite Hfst; apply sortedVersions_NoDup).
  done.
Qed.

Lemma new_inv (data : TypingsVersionsRaw) this :
  new data = Some this ->
  versions this = sortedVersions data /\
  (map this).*1 = versions this /\
  (forall i v, versions this !! i = Some v ->
     exists raw, Object_get data (keyOf v) = Some raw /\
       map this !! i = Some (v, TypingsData.new raw (isZero i))).
Proof.
  intros Hnew. destruct (new_spec data) as (this' & Hnew' & Hspec).
  by replace this with this' by congruence.
Qed.

(** The record at a position of the sorted order: found through the map,
    and listed by [getAll] at the same position. *)
Lemma record_at (data : TypingsVersionsRaw) this i v :
  new data = Some this -> versions this !! i = Some v ->
  exists raw,
    Object_get data (keyOf v) = Some raw /\
    Map_get (map this) v = Some (TypingsData.new raw (isZero i)) /\
    getAll this !! i = Some (TypingsData.new raw (isZero i)).
Proof.
  intros Hnew Hv. destruct (new_inv data this Hnew) as (Hvs & Hfst & Hat).
  destruct (Hat i v Hv) as (raw & Hraw & Hentry).
  exists raw. split_and!; [done| |].
  - unfold Map_get. eapply Object_get_lookup; [|done].
    rewrite Hfst, Hvs. apply sortedVersions_NoDup.
  - unfold getAll, Map_values. by rewrite list_lookup_fmap, Hentry.
Qed.

Lemma length_versions (data : TypingsVersionsRaw) this :
  new data = Some this -> length (versions this) = length data.
Proof.
  intros (-> & _)%new_inv.
  rewrite sortedVersions_Permutation, length_imap.
  unfold Object_keys. by rewrite length_fmap.
Qed.

Lemma length_getAll (data : TypingsVersionsRaw) this :
  new data = Some this -> length (getAll this) = length (versions this).
Proof.
  intros (_ & <- & _)%new_inv. unfold getAll, Map_values.
  by rewrite !length_fmap.
Qed.

(** What [tryGetLatestMatch] returns: the record at the first position of
    the sorted order whose version matches, if there is one. *)
Lemma tryGetLatestMatch_find (data : TypingsVersionsRaw) this version :
  new data = Some this ->
  match list_find (fun v => matches version v = true) (versions this) with
  | Some (i, v) =>
      exists raw, Object_get data (keyOf v) = Some raw /\
        getAll this !! i = Some (TypingsData.new raw (isZero i)) /\
        tryGetLatestMatch this version
        = Some (TypingsData.new raw (isZero i))
  | None => tryGetLatestMatch this version = None
  end.
Proof.
  intros Hnew. unfold tryGetLatestMatch, Array_find.
  destruct (list_find _ _) as [[i v]|] eqn:Hfind; [|done].
  apply list_find_Some in Hfind as (Hv & _ & _).
  destruct (record_at data this i v Hnew Hv) as (raw & Hraw & Hget & Hall).
  exists raw. simpl. by rewrite Hget.
Qed.

Example widget_sorted :
  (keyOf <$> sortedVersions widget) = [(2, 3)%N; (2, 1)%N; (1, 0)%N].
Proof. vm_compute. reflexivity. Qed.

Example widget_headersAgree : headersAgree widget.
Proof.
  intros key raw. unfold widget. simpl.
  repeat case_decide; intros [= <-]; by subst.
Qed.

Example widget_get_major :
  (this ← new widget;
   tryGet this (Version {| dir_major := 2; dir_minor := None |}))
  = Some (TypingsData.new (sampleRaw "widget" 2 3) true).
Proof. vm_compute. reflexivity. Qed.

Example widget_get_exact :
  (this ← new widget;
   tryGet this (Version {| dir_major := 2; dir_minor := Some 1%N |}))
  = Some (TypingsData.new (sampleRaw "widget" 2 1) false).
Proof. vm_compute. reflexivity. Qed.

Example widget_getLatest :
  (new widget ≫= getLatest)
  = Some (TypingsData.new (sampleRaw "widget" 2 3) true).
Proof. vm_compute. reflexivity. Qed.

(** On the set built from an empty raw mapping [getLatest] is
    [undefined]. *)
Example getLatest_empty : (new [] ≫= getLatest) = None.
Proof. reflexivity. Qed.

(** C2: the set built from a non-empty raw mapping has exactly one record
    flagged latest; it is the first record of the newest-to-oldest order,
    it is the record stored under the lexicographically greatest
    (major, minor) key, and [getLatest] returns it. *)
Theorem getLatest_first_and_maximal (data : TypingsVersionsRaw) :
  data <> [] ->
  exists this latest others v raw,
    new data = Some this /\
    getLatest this = Some latest /\
    getAll this = latest :: others /\
    TypingsData.isLatest latest = true /\
    Forall (fun record => TypingsData.isLatest record = false) others /\
    versions this !! 0 = Some v /\
    Object_get data (keyOf v) = Some raw /\
    TypingsData.data latest = raw /\
    (forall key, key ∈ Object_keys data -> VersionKey_le key (keyOf v)) /\
    (forall i j vi vj, i <= j ->
       versions this !! i = Some vi -> versions this !! j = Some vj ->
       VersionKey_le (keyOf vj) (keyOf vi)) /\
    (headersAgree data ->
     forall record, record ∈ getAll this ->
       VersionKey_le (TypingsData.major record, TypingsData.minor record)
         (TypingsData.major latest, TypingsData.minor latest)).
Proof.
  intros Hdata. destruct (new_spec data) as (this & Hnew & Hvs & Hfst & Hat).
  pose proof (length_versions data this Hnew) as Hlen.
  pose proof (length_getAll data this Hnew) as Hlen'.
  destruct (versions this !! 0) as [v|] eqn:Hv; last first.
  { apply lookup_ge_None in Hv. destruct data; [done|]. simpl in Hlen. lia. }
  destruct (record_at data this 0 v Hnew Hv) as (raw & Hraw & Hget & Hall).
  destruct (getAll this) as [|latest others] eqn:Hrecords; [done|].
  injection Hall as ->.
  exists this, (TypingsData.new raw true), others, v, raw.
  split_and!; try done.
  - unfold getLatest. rewrite Hv. exact Hget.
  - apply Forall_lookup. intros i record Hi.
    assert (is_Some (versions this !! S i)) as [w Hw].
    { apply lookup_lt_is_Some. rewrite <- Hlen'. simpl.
      apply lookup_lt_Some in Hi. lia. }
    destruct (record_at data this (S i) w Hnew Hw) as (raw' & _ & _ & Hall').
    rewrite Hrecords in Hall'. simpl in Hall'.
    by replace record with (TypingsData.new raw' false) by congruence.
  - intros key (w & [j Hj]%list_elem_of_lookup_1 & <-)%sortedVersions_key.
    rewrite Hvs in Hv. eapply (sortedVersions_sorted data 0 j); [lia|done..].
  - intros i j vi vj Hij Hi Hj. rewrite Hvs in Hi, Hj.
    by eapply sortedVersions_sorted.
  - intros Hagree record [i Hi]%list_elem_of_lookup_1.
    assert (is_Some (versions this !! i)) as [w Hw].
    { apply lookup_lt_is_Some. rewrite <- Hlen', <- Hrecords.
      by eapply lookup_lt_Some. }
    destruct (record_at data this i w Hnew Hw) as (raw' & Hraw' & _ & Hall').
    replace record with (TypingsData.new raw' (isZero i)) by congruence.
    unfold TypingsData.major, TypingsData.minor. simpl.
    rewrite (Hagree _ _ Hraw), (Hagree _ _ Hraw').
    rewrite Hvs in Hv, Hw.
    eapply (sortedVersions_sorted data 0 i); [lia|done..].
Qed.

Lemma getLatest_first_and_maximal_witness :
  exists this latest,
    new widget = Some this /\ getLatest this = Some latest /\
    TypingsData.data latest = sampleRaw "widget" 2 3.
Proof.
  destruct (getLatest_first_and_maximal widget)
    as (this & latest & others & v & raw & Hnew & Hlatest & Hall & H).
  { discriminate. }
  exists this, latest. split_and!; [done..|].
  vm_compute in Hnew. injection Hnew as <-.
  vm_compute in Hlatest. by injection Hlatest as <-.
Defined.

Lemma matches_major_only major v :
  matches {| dir_major := major; dir_minor := None |} v = true
  <-> SemVer.major v = major.
Proof.
  unfold matches. simpl. rewrite andb_true_r. apply N.eqb_eq.
Qed.

Lemma matches_exact major minor v :
  matches {| dir_major := major; dir_minor := Some minor |} v = true
  <-> keyOf v = (major, minor).
Proof.
  unfold matches, keyOf. simpl. rewrite andb_true_iff, !N.eqb_eq.
  split; [by intros [-> ->]|by intros [= -> ->]].
Qed.

Lemma get_tryGet this version errorMessage record :
  tryGet this (Version version) = Some record ->
  get this (Version version) errorMessage = Ok (Some record).
Proof. simpl. unfold getLatestMatch. by intros ->. Qed.

(** C1: when some record is stored under the requested major, a request
    with the minor left out is answered, by [tryGet] and by [get], with
    the first record of the newest-first order whose key has that major,
    which is the one of highest minor among them; a request that names the
    minor of a stored (major, minor) key is answered with the record stored
    under that very key. *)
Theorem get_latest_match (data : TypingsVersionsRaw) (major minor : N)
    (errorMessage : option string) :
  (major, minor) ∈ Object_keys data ->
  exists this,
    new data = Some this /\
    (exists i v raw record,
        versions this !! i = Some v /\
        SemVer.major v = major /\
        (forall j w, j < i -> versions this !! j = Some w ->
                     SemVer.major w <> major) /\
        (forall minor', (major, minor') ∈ Object_keys data ->
                        (minor' <= SemVer.minor v)%N) /\
        Object_get data (keyOf v) = Some raw /\
        getAll this !! i = Some record /\
        TypingsData.data record = raw /\
        (headersAgree data ->
         TypingsData.major record = major /\
         TypingsData.minor record = SemVer.minor v) /\
        tryGet this (Version {| dir_major := major; dir_minor := None |})
        = Some record /\
        get this (Version {| dir_major := major; dir_minor := None |})
          errorMessage
        = Ok (Some record)) /\
    (exists raw record,
        Object_get data (major, minor) = Some raw /\
        record ∈ getAll this /\
        TypingsData.data record = raw /\
        (headersAgree data ->
         TypingsData.major record = major /\
         TypingsData.minor record = minor) /\
        tryGet this
          (Version {| dir_major := major; dir_minor := Some minor |})
        = Some record /\
        get this (Version {| dir_major := major; dir_minor := Some minor |})
          errorMessage
        = Ok (Some record)).
Proof.
  intros Hkey. destruct (new_spec data) as (this & Hnew & Hvs & _).
  exists this. split; [done|].
  destruct (sortedVersions_key data _ Hkey) as (w0 & Hw0 & Hkey0).
  rewrite <- Hvs in Hw0. split.
  - set (version := {| dir_major := major; dir_minor := None |}).
    pose proof (tryGetLatestMatch_find data this version Hnew) as Hfind.
    destruct (list_find _ _) as [[i v]|] eqn:Hfirst; last first.
    { apply list_find_None in Hfirst.
      rewrite Forall_forall in Hfirst. destruct (Hfirst w0 Hw0).
      apply matches_major_only. unfold keyOf in Hkey0. congruence. }
    destruct Hfind as (raw & Hraw & Hall & Htry).
    apply list_find_Some in Hfirst as (Hv & Hmatch & Hleast).
    apply matches_major_only in Hmatch.
    exists i, v, raw, (TypingsData.new raw (isZero i)).
    split_and!; try done.
    + intros j w Hj Hw Hmajor. apply (Hleast j w Hw Hj).
      by apply matches_major_only.
    + intros minor' (w & [j Hj]%list_elem_of_lookup_1 & Hkw)%sortedVersions_key.
      rewrite <- Hvs in Hj.
      assert (SemVer.major w = major) as Hmajor
        by (unfold keyOf in Hkw; congruence).
      assert (i <= j) as Hij.
      { apply Nat.nlt_ge. intros Hlt. apply (Hleast j w Hj Hlt).
        by apply matches_major_only. }
      rewrite Hvs in Hv, Hj.
      pose proof (sortedVersions_sorted data i j v w Hij Hv Hj) as Hle.
      rewrite Hkw in Hle. unfold VersionKey_le, keyOf in Hle. simpl in Hle.
      lia.
    + intros Hagree. specialize (Hagree _ _ Hraw).
      unfold TypingsData.major, TypingsData.minor, keyOf in *. simpl.
      injection Hagree as -> ->. done.
    + by apply get_tryGet.
  - set (version := {| dir_major := major; dir_minor := Some minor |}).
    pose proof (tryGetLatestMatch_find data this version Hnew) as Hfind.
    destruct (list_find _ _) as [[i v]|] eqn:Hfirst; last first.
    { apply list_find_None in Hfirst.
      rewrite Forall_forall in Hfirst. destruct (Hfirst w0 Hw0).
      by apply matches_exact. }
    destruct Hfind as (raw & Hraw & Hall & Htry).
    apply list_find_Some in Hfirst as (Hv & Hmatch & _).
    apply matches_exact in Hmatch. rewrite Hmatch in Hraw.
    exists raw, (TypingsData.new raw (isZero i)).
    split_and!; try done.
    + by eapply list_elem_of_lookup_2.
    + intros Hagree. specialize (Hagree _ _ Hraw).
      unfold TypingsData.major, TypingsData.minor. simpl.
      by injection Hagree as -> ->.
    + by apply get_tryGet.
Qed.

Lemma get_latest_match_witness :
  exists this,
    new widget = Some this /\
    tryGet this (Version {| dir_major := 2; dir_minor := None |})
    = Some (TypingsData.new (sampleRaw "widget" 2 3) true) /\
    tryGet this (Version {| dir_major := 2; dir_minor := Some 1%N |})
    = Some (TypingsData.new (sampleRaw "widget" 2 1) false).
Proof.
  destruct (get_latest_match widget 2 1 None) as (this & Hnew & _).
  { apply (bool_decide_unpack _). vm_compute. exact I. }
  exists this. split; [done|].
  vm_compute in Hnew. injection Hnew as <-. split; reflexivity.
Defined.

(** Without a record of the requested major, [tryGet] finds nothing and
    [get] throws. *)
Lemma get_no_match (data : TypingsVersionsRaw) this major errorMessage :
  new data = Some this ->
  (forall minor, (major, minor) ∉ Object_keys data) ->
  let version := {| dir_major := major; dir_minor := None |} in
  tryGet this (Version version) = None /\
  get this (Version version) errorMessage
  = Throw (CouldNotFindVersion version errorMessage).
Proof.
  intros Hnew Hnone version.
  pose proof (tryGetLatestMatch_find data this version Hnew) as Hfind.
  destruct (list_find _ _) as [[i v]|] eqn:Hfirst.
  - apply list_find_Some in Hfirst as (Hv & Hmatch & _).
    apply matches_major_only in Hmatch.
    apply new_inv in Hnew as (Hvs & _). rewrite Hvs in Hv.
    apply list_elem_of_lookup_2, sortedVersions_elem_of in Hv as [Hkey _].
    destruct (Hnone (SemVer.minor v)). unfold keyOf in Hkey. by subst.
  - simpl. unfold getLatestMatch. by rewrite Hfind.
Qed.

(** A record answered by [tryGet] is stored in the raw data under the key
    of the version it was matched by. *)
Lemma tryGet_stored (data : TypingsVersionsRaw) this version record :
  new data = Some this ->
  tryGet this version = Some record ->
  exists i v,
    versions this !! i = Some v /\
    Object_get data (keyOf v) = Some (TypingsData.data record) /\
    getAll this !! i = Some record /\
    match version with
    | Star => i = 0
    | Version requested => matches requested v = true
    end.
Proof.
  intros Hnew Htry. destruct version as [|requested]; simpl in Htry.
  - unfold getLatest in Htry.
    destruct (versions this !! 0) as [v|] eqn:Hv; [|done].
    destruct (record_at data this 0 v Hnew Hv) as (raw & Hraw & Hget & Hall).
    simpl in Htry. rewrite Hget in Htry. injection Htry as <-.
    by exists 0, v.
  - pose proof (tryGetLatestMatch_find data this requested Hnew) as Hfind.
    destruct (list_find _ _) as [[i v]|] eqn:Hfirst; [|congruence].
    destruct Hfind as (raw & Hraw & Hall & Htry').
    apply list_find_Some in Hfirst as (Hv & Hmatch & _).
    rewrite Htry' in Htry. injection Htry as <-.
    by exists i, v.
Qed.

End TypingsVersionsFacts.

(** ** The registry *)

Section AllPackagesFacts.
Import AllPackages.

(** [tryResolve] agrees with [resolve] where [resolve] succeeds, and gives
    the id back wherever [resolve] throws. *)
Lemma tryResolve_resolve (this : AllPackages.t) (dep : PackageId.t) :
  tryResolve this dep
  = match resolve this dep with
    | Ok id => PackageIdWithDefiniteVersion.toPackageId id
    | Throw _ => dep
    end.
Proof.
  unfold tryResolve, resolve.
  destruct (Map_get _ _) as [versions|]; simpl; [|done].
  destruct (PackageId.version dep) as [|version]; simpl.
  - by destruct (TypingsVersions.getLatest versions).
  - unfold TypingsVersions.getLatestMatch.
    by destruct (TypingsVersions.tryGetLatestMatch versions version).
Qed.

Lemma Gen_seq_yield {A} (m : Exc A) (rest g : Gen A) :
  Gen_seq (Gen_yield m rest) g = Gen_yield m (Gen_seq rest g).
Proof. by destruct m. Qed.

Lemma Gen_of_results_app {A} (l1 l2 : list (Exc A)) :
  Gen_of_results (l1 ++ l2) = Gen_seq (Gen_of_results l1) (Gen_of_results l2).
Proof.
  induction l1 as [|[a|e] l1 IH]; simpl; [done| |done]. by rewrite IH.
Qed.

Lemma Gen_of_results_cons {A} (m : Exc A) (requests : list (Exc A)) :
  Gen_of_results (m :: requests) = Gen_yield m (Gen_of_results requests).
Proof. by destruct m. Qed.

(** Reading a name that is an own key, or that [Object.prototype] does
    not define, finds the own property or nothing. *)
Lemma Object_read_plain {V} (o : list (string * V)) (k : string) :
  is_Some (Object_get o k) \/ k ∉ inheritedMembers ->
  Object_read o k
  = match Object_get o k with
    | Some v => Own v
    | None => Undefined
    end.
Proof.
  unfold Object_read. intros [[v ->]|Hk]; [done|].
  destruct (Object_get o k); [done|]. by rewrite bool_decide_eq_false_2.
Qed.

(** The two loops of [allDependencyTypings] against the list of
    requests, when no dependency is named like a member of
    [Object.prototype] without being a key of the path mappings. *)
Lemma loops_requests (this : AllPackages.t) (pkg : TypingsData.t) :
  (forall name,
     name ∈ (TypingsData.dependencies pkg).*1
            ++ TypingsData.testDependencies pkg ->
     is_Some (Object_get (TypingsData.pathMappings pkg) name)
     \/ name ∉ inheritedMembers) ->
  allDependencyTypings this pkg
  = Gen_of_results (dependencyRequests this pkg).
Proof.
  unfold allDependencyTypings, dependencyRequests, Object_entries.
  intros Hplain. rewrite Gen_of_results_app. f_equal.
  - assert (forall name, name ∈ (TypingsData.dependencies pkg).*1 ->
              is_Some (Object_get (TypingsData.pathMappings pkg) name)
              \/ name ∉ inheritedMembers) as Hdeps
      by (intros name Hname; apply Hplain, elem_of_app; by left).
    clear Hplain.
    induction (TypingsData.dependencies pkg) as [|[name version] rest IH];
      [done|].
    csimpl. rewrite IH by (intros ? ?; apply Hdeps; by right).
    destruct (Map_get _ _) as [versions|]; simpl; [|done].
    unfold Gen_yield. rewrite Object_read_plain by (apply Hdeps; left).
    by destruct (Object_get (TypingsData.pathMappings pkg) name).
  - assert (forall name, name ∈ TypingsData.testDependencies pkg ->
              is_Some (Object_get (TypingsData.pathMappings pkg) name)
              \/ name ∉ inheritedMembers) as Htests
      by (intros name Hname; apply Hplain, elem_of_app; by right).
    clear Hplain.
    induction (TypingsData.testDependencies pkg) as [|name rest IH]; [done|].
    csimpl. rewrite IH by (intros ? ?; apply Htests; by right).
    destruct (Map_get _ _) as [versions|]; simpl; [|done].
    unfold Gen_yield. rewrite Object_read_plain by (apply Htests; left).
    by destruct (Object_get (TypingsData.pathMappings pkg) name).
Qed.

Lemma Gen_of_results_Ok {A} (l : list A) :
  Gen_of_results (Ok <$> l) = foldr GYield GDone l.
Proof. induction l as [|a l IH]; simpl; [done|]. f_equal. exact IH. Qed.

Lemma Gen_yields_all {A} (l : list A) : Gen_yields (foldr GYield GDone l) = l.
Proof. induction l as [|a l IH]; simpl; [done|]. by rewrite IH. Qed.

(** When, besides, every request is answered, the generator yields
    exactly the answers and then returns. *)
Lemma allDependencyTypings_yields (this : AllPackages.t)
    (pkg : TypingsData.t) (records : list (option TypingsData.t)) :
  (forall name,
     name ∈ (TypingsData.dependencies pkg).*1
            ++ TypingsData.testDependencies pkg ->
     is_Some (Object_get (TypingsData.pathMappings pkg) name)
     \/ name ∉ inheritedMembers) ->
  dependencyRequests this pkg = Ok <$> records ->
  allDependencyTypings this pkg = foldr GYield GDone records /\
  Gen_yields (allDependencyTypings this pkg) = records.
Proof.
  intros Hplain Hrequests.
  rewrite loops_requests, Hrequests, Gen_of_results_Ok, Gen_yields_all;
    done.
Qed.

(** The generator of the sample package: the major-1 record of [foo], the
    latest record of [bar], the path-mapped record of [scope__pkg]; the
    dependency [ambient], which has no version set, is passed over. *)
Example allDependencyTypings_sample :
  (this ← from sampleFile [];
   Some (allDependencyTypings this samplePackage))
  = Some (GYield (Some (TypingsData.new (sampleRaw "foo" 1 4) false))
         (GYield (Some (TypingsData.new (sampleRaw "bar" 3 1) true))
         (GYield (Some (TypingsData.new (sampleRaw "scope__pkg" 7 2) true))
          GDone))).
Proof. vm_compute. reflexivity. Qed.



Example sampleRegistry_from : from sampleFile [] = Some sampleRegistry.
Proof. vm_compute. reflexivity. Qed.

(** A record stored under the directory key 1.0 whose header says 7.2 is
    resolved to the id of version 7.2. *)
Example resolve_header_differs :
  resolve sampleRegistry
    {| PackageId.name := "@scope/pkg";
       PackageId.version :=
         Version {| dir_major := 1; dir_minor := Some 0%N |} |}
  = Ok {| PackageIdWithDefiniteVersion.name := "scope__pkg";
          PackageIdWithDefiniteVersion.version :=
            {| hdr_major := 7; hdr_minor := 2 |} |}.
Proof. vm_compute. reflexivity. Qed.

(** C10: when the requested version matches a record, [resolve] and
    [tryResolve] answer with the version read from the record's header,
    [libraryMajorVersion] and [libraryMinorVersion], whatever the
    directory key the record is stored under and was matched by; the
    answer carries the requested (major, minor) only if the header agrees
    with that key. *)
Theorem resolve_header_version (this : AllPackages.t)
    (raws : TypingsVersions.TypingsVersionsRaw)
    (versions : TypingsVersions.t) (dep : PackageId.t)
    (record : TypingsData.t) :
  Map_get (data this) (mangle (PackageId.name dep)) = Some versions ->
  TypingsVersions.new raws = Some versions ->
  TypingsVersions.tryGet versions (PackageId.version dep) = Some record ->
  let raw := TypingsData.data record in
  let header :=
    {| hdr_major := TypingsDataRaw.libraryMajorVersion raw;
       hdr_minor := TypingsDataRaw.libraryMinorVersion raw |} in
  let id :=
    {| PackageIdWithDefiniteVersion.name :=
         TypingsDataRaw.typingsPackageName raw;
       PackageIdWithDefiniteVersion.version := header |} in
  resolve this dep = Ok id /\
  tryResolve this dep = PackageIdWithDefiniteVersion.toPackageId id /\
  exists key,
    Object_get raws key = Some raw /\
    (forall major, PackageId.version dep
                   = Version {| dir_major := major; dir_minor := None |} ->
       key.1 = major) /\
    (forall major minor,
       PackageId.version dep
       = Version {| dir_major := major; dir_minor := Some minor |} ->
       key = (major, minor) /\
       (header = {| hdr_major := major; hdr_minor := minor |} ->
        (TypingsDataRaw.libraryMajorVersion raw,
         TypingsDataRaw.libraryMinorVersion raw) = key)).
Proof.
  intros Hversions Hnew Htry raw header id.
  assert (resolve this dep = Ok id) as Hresolve.
  { unfold resolve. rewrite Hversions.
    destruct (PackageId.version dep) as [|requested]; simpl in *.
    - by rewrite Htry.
    - unfold TypingsVersions.getLatestMatch. by rewrite Htry. }
  split; [done|]. split.
  { by rewrite tryResolve_resolve, Hresolve. }
  destruct (tryGet_stored raws versions _ record Hnew Htry)
    as (i & v & _ & Hraw & _ & Hmatch).
  exists (TypingsVersions.keyOf v). split_and!; [done| |].
  - intros major Hdep. rewrite Hdep in Hmatch.
    by apply matches_major_only in Hmatch.
  - intros major minor Hdep. rewrite Hdep in Hmatch.
    apply matches_exact in Hmatch. split; [done|].
    rewrite Hmatch. unfold header. by intros [= -> ->].
Qed.

Lemma resolve_header_version_witness :
  resolve sampleRegistry
    {| PackageId.name := "@scope/pkg";
       PackageId.version :=
         Version {| dir_major := 1; dir_minor := Some 0%N |} |}
  = Ok {| PackageIdWithDefiniteVersion.name := "scope__pkg";
          PackageIdWithDefiniteVersion.version :=
            {| hdr_major := 7; hdr_minor := 2 |} |}.
Proof.
  apply (resolve_header_version sampleRegistry
           [ ((1, 0)%N, sampleRaw "scope__pkg" 7 2) ] sampleVersions
           {| PackageId.name := "@scope/pkg";
              PackageId.version :=
                Version {| dir_major := 1; dir_minor := Some 0%N |} |}
           (TypingsData.new (sampleRaw "scope__pkg" 7 2) true));
    reflexivity.
Defined.

End AllPackagesFacts.

(** ** Not-needed packages *)

Section NotNeededPackageFacts.
Import NotNeededPackage.
Variable toLowerCase : string -> string.
Variable parseSemVer : string -> option SemVer.t.

Local Abbreviation fromRaw := (NotNeededPackage.fromRaw toLowerCase parseSemVer).

Lemma allowedKey_elem_of key :
  allowedKey key = true
  <-> key ∈ ["libraryName"; "sourceRepoURL"; "asOfVersion"].
Proof.
  unfold allowedKey. simpl. rewrite !orb_true_iff, !String.eqb_eq.
  rewrite !elem_of_cons, elem_of_nil. intuition discriminate.
Qed.

Lemma checkKeys_Ok keys :
  Forall (fun key => allowedKey key = true) keys -> checkKeys keys = Ok tt.
Proof. induction 1 as [|key keys Hkey _ IH]; simpl; [done|]. by rewrite Hkey. Qed.

Lemma checkKeys_Throw keys :
  ~ Forall (fun key => allowedKey key = true) keys ->
  exists key,
    key ∈ keys /\ allowedKey key = false /\
    checkKeys keys = Throw (UnexpectedKey key).
Proof.
  induction keys as [|key keys IH]; intros Hnot.
  - destruct Hnot. constructor.
  - simpl. destruct (allowedKey key) eqn:Hkey; simpl.
    + destruct IH as (key' & Hin & Hbad & Hthrow).
      { intros Hall. apply Hnot. by constructor. }
      exists key'. split_and!; [by right|done..].
    + exists key. split_and!; [by left|done..].
Qed.

Lemma eqb_lowerCase s :
  negb (String.eqb s (toLowerCase s)) = false <-> s = toLowerCase s.
Proof. rewrite negb_false_iff. apply String.eqb_eq. Qed.

Lemma truthy_nonempty s : truthy s = true <-> s <> "".
Proof. unfold truthy. rewrite negb_true_iff. apply String.eqb_neq. Qed.

(** C7: [fromRaw] checks, in this order: the name is lower-case; every
    key of the raw entry is one of the three allowed; [libraryName] is
    lower-case; [libraryName], the name and [asOfVersion] are non-empty
    (the constructor's assertion); [asOfVersion] parses as a semantic
    version.  The first check that fails gives the error; when none fails
    the package is built. *)
Theorem fromRaw_validation_order (name : string) (raw : NotNeededPackageRaw) :
  let lowerCase s := s = toLowerCase s in
  let keysAllowed :=
    Forall (fun key => key ∈ ["libraryName"; "sourceRepoURL"; "asOfVersion"])
      (Object_keys raw) in
  (~ lowerCase name -> fromRaw name raw = Throw (NameNotLowerCase name)) /\
  (lowerCase name -> ~ keysAllowed ->
   exists key,
     key ∈ Object_keys raw /\
     (key ∉ ["libraryName"; "sourceRepoURL"; "asOfVersion"]) /\
     fromRaw name raw = Throw (UnexpectedKey key)) /\
  (forall libraryName,
     Object_get raw "libraryName" = Some libraryName ->
     lowerCase name -> keysAllowed ->
     (~ lowerCase libraryName ->
      fromRaw name raw = Throw (LibraryNameNotLowerCase name)) /\
     (lowerCase libraryName ->
      (libraryName = "" \/ name = "" \/
       Object_get raw "asOfVersion" = None \/
       Object_get raw "asOfVersion" = Some "" ->
       fromRaw name raw = Throw AssertionError) /\
      (forall asOfVersion,
         libraryName <> "" -> name <> "" ->
         Object_get raw "asOfVersion" = Some asOfVersion ->
         asOfVersion <> "" ->
         (parseSemVer asOfVersion = None ->
          fromRaw name raw = Throw (InvalidVersion asOfVersion)) /\
         (forall version,
            parseSemVer asOfVersion = Some version ->
            fromRaw name raw
            = Ok {| NotNeededPackage.name := name;
                    NotNeededPackage.libraryName := libraryName;
                    NotNeededPackage.version := version |})))).
Proof.
  intros lowerCase keysAllowed. unfold NotNeededPackage.fromRaw.
  assert (keysAllowed
          <-> Forall (fun key => allowedKey key = true) (Object_keys raw))
    as Hkeys.
  { unfold keysAllowed. apply Forall_proper; [|done].
    intros key. by rewrite allowedKey_elem_of. }
  split_and!.
  - intros Hname. destruct (negb _) eqn:E; [done|].
    apply eqb_lowerCase in E. destruct (Hname E).
  - intros Hname%eqb_lowerCase Hbad. rewrite Hname.
    rewrite Hkeys in Hbad.
    destruct (checkKeys_Throw _ Hbad) as (key & Hin & Hkey & ->).
    exists key. split_and!; [done| |done].
    rewrite <- allowedKey_elem_of. congruence.
  - intros libraryName Hlib Hname%eqb_lowerCase Hall%Hkeys.
    rewrite Hname, (checkKeys_Ok _ Hall), Hlib. simpl. split.
    { intros Hnot.
      destruct (negb (String.eqb libraryName (toLowerCase libraryName)))
        eqn:E; [done|].
      apply eqb_lowerCase in E. destruct (Hnot E). }
    intros Hlower%eqb_lowerCase. rewrite Hlower. unfold new. split.
    + intros Hempty.
      destruct (Object_get raw "asOfVersion") as [asOfVersion|]; [|done].
      destruct (truthy libraryName && truthy name && truthy asOfVersion)
        eqn:Htruthy; [|done].
      rewrite !andb_true_iff, !truthy_nonempty in Htruthy.
      destruct Htruthy as [[? ?] ?].
      destruct Hempty as [?|[?|[?|?]]]; congruence.
    + intros asOfVersion Hl Hn -> Hv.
      rewrite (proj2 (truthy_nonempty libraryName) Hl).
      rewrite (proj2 (truthy_nonempty name) Hn).
      rewrite (proj2 (truthy_nonempty asOfVersion) Hv). simpl.
      split; [by intros ->|]. by intros version ->.
Qed.

(** Reading a raw entry without [libraryName], which the declared type
    of the entry rules out, stops at the lower-case check. *)
Lemma fromRaw_without_libraryName (name : string) (raw : NotNeededPackageRaw) :
  name = toLowerCase name ->
  Forall (fun key => allowedKey key = true) (Object_keys raw) ->
  Object_get raw "libraryName" = None ->
  fromRaw name raw = Throw TypeErrorUndefined.
Proof.
  intros Hname%eqb_lowerCase Hall Hlib. unfold NotNeededPackage.fromRaw.
  by rewrite Hname, (checkKeys_Ok _ Hall), Hlib.
Qed.

(** C9: reading [globals] of a not-needed package never produces a value:
    the getter reads [this.globals] again, so no evaluation of it ends,
    however deep the nesting allowed; reading [declaredModules] gives the
    empty list. *)
Theorem globals_never_returns (this : NotNeededPackage.t) :
  body globals this = ReadThis globals /\
  (forall value, ~ Reads this globals value) /\
  (forall fuel, read fuel globals this = None) /\
  Reads this declaredModules [] /\
  read 1 declaredModules this = Some [].
Proof.
  split_and!.
  - reflexivity.
  - intros value Hreads. remember globals as getter eqn:Hgetter.
    induction Hreads as [getter value Hbody|getter getter' value Hbody _ IH];
      subst getter; simpl in Hbody.
    + discriminate.
    + injection Hbody as <-. by apply IH.
  - intros fuel. induction fuel as [|fuel IH]; [done|]. exact IH.
  - by apply Reads_return.
  - reflexivity.
Qed.

End NotNeededPackageFacts.

Example fromRaw_ok :
  NotNeededPackage.fromRaw sampleToLowerCase sampleParseSemVer "foo"
    [("libraryName", "foo"); ("asOfVersion", "1.0.0")]
  = Ok {| NotNeededPackage.name := "foo";
          NotNeededPackage.libraryName := "foo";
          NotNeededPackage.version :=
            {| SemVer.ref := 0; SemVer.major := 1; SemVer.minor := 0;
               SemVer.patch := 0 |} |}.
Proof. vm_compute. reflexivity. Qed.

Example fromRaw_name_case :
  NotNeededPackage.fromRaw sampleToLowerCase sampleParseSemVer "Foo"
    [("libraryName", "foo"); ("asOfVersion", "1.0.0")]
  = Throw (NameNotLowerCase "Foo").
Proof. vm_compute. reflexivity. Qed.

Example fromRaw_libraryName_case :
  NotNeededPackage.fromRaw sampleToLowerCase sampleParseSemVer "foo"
    [("libraryName", "Foo"); ("asOfVersion", "1.0.0")]
  = Throw (LibraryNameNotLowerCase "foo").
Proof. vm_compute. reflexivity. Qed.

Example fromRaw_unexpected_key :
  NotNeededPackage.fromRaw sampleToLowerCase sampleParseSemVer "foo"
    [("libraryName", "foo"); ("asOfVersion", "1.0.0"); ("extra", "1")]
  = Throw (UnexpectedKey "extra").
Proof. vm_compute. reflexivity. Qed.

(** The unexpected key is reported before the case of [libraryName]. *)
Example fromRaw_key_before_libraryName :
  NotNeededPackage.fromRaw sampleToLowerCase sampleParseSemVer "foo"
    [("libraryName", "Foo"); ("asOfVersion", ""); ("extra", "1")]
  = Throw (UnexpectedKey "extra").
Proof. vm_compute. reflexivity. Qed.

Example fromRaw_empty_version :
  NotNeededPackage.fromRaw sampleToLowerCase sampleParseSemVer "foo"
    [("libraryName", "foo"); ("asOfVersion", "")]
  = Throw AssertionError.
Proof. vm_compute. reflexivity. Qed.

Example fromRaw_bad_version :
  NotNeededPackage.fromRaw sampleToLowerCase sampleParseSemVer "foo"
    [("libraryName", "foo"); ("asOfVersion", "1.0")]
  = Throw (InvalidVersion "1.0").
Proof. vm_compute. reflexivity. Qed.

Lemma fromRaw_validation_order_witness :
  NotNeededPackage.fromRaw sampleToLowerCase sampleParseSemVer "foo"
    [("libraryName", "Foo"); ("asOfVersion", "1.0.0")]
  = Throw (LibraryNameNotLowerCase "foo") /\
  NotNeededPackage.fromRaw sampleToLowerCase sampleParseSemVer "foo"
    [("libraryName", "foo"); ("asOfVersion", "1.0.0")]
  = Ok {| NotNeededPackage.name := "foo";
          NotNeededPackage.libraryName := "foo";
          NotNeededPackage.version :=
            {| SemVer.ref := 0; SemVer.major := 1; SemVer.minor := 0;
               SemVer.patch := 0 |} |}.
Proof.
  split.
  - refine (proj1 (proj2 (proj2 (fromRaw_validation_order
             sampleToLowerCase sampleParseSemVer "foo"
             [("libraryName", "Foo"); ("asOfVersion", "1.0.0")]))
             "Foo" _ _ _) _).
    + reflexivity.
    + reflexivity.
    + apply (bool_decide_unpack _). vm_compute. exact I.
    + vm_compute. discriminate.
  - refine (proj2 (proj2 (proj2 (proj2 (proj2 (fromRaw_validation_order
             sampleToLowerCase sampleParseSemVer "foo"
             [("libraryName", "foo"); ("asOfVersion", "1.0.0")]))
             "foo" _ _ _) _) "1.0.0" _ _ _ _) _ _).
    + reflexivity.
    + reflexivity.
    + apply (bool_decide_unpack _). vm_compute. exact I.
    + reflexivity.
    + discriminate.
    + discriminate.
    + reflexivity.
    + discriminate.
    + reflexivity.
Defined.

(* ================================================================== *)
(** * Part III: further properties of the code *)
(* ================================================================== *)

(** ** More on the version set *)

Section VersionSetInvariants.
Import TypingsVersions.
#[local] Existing Instance rcompare_total.
#[local] Existing Instance rcompare_transitive.

Local Abbreviation sortedVersions data :=
  (Array_sort SemVer.rcompare (imap parseKey (Object_keys data))).

Lemma matches_iff version v :
  matches version v = true <->
  SemVer.major v = dir_major version /\
  (forall minor, dir_minor version = Some minor -> SemVer.minor v = minor).
Proof.
  unfold matches. rewrite andb_true_iff, N.eqb_eq.
  destruct (dir_minor version) as [minor|].
  - rewrite N.eqb_eq. split.
    + intros [? ?]. split; [done|]. by intros ? [= <-].
    + intros [? Hminor]. split; [done|]. by apply Hminor.
  - split; [|by intros [? _]]. intros [? _]. split; [done|]. by intros ? [=].
Qed.

Lemma omap_Forall2 {A B} (f : A -> option B) (l : list A) (k : list B) :
  Forall2 (fun x y => f x = Some y) l k -> omap f l = k.
Proof. induction 1 as [|x y l k Hxy _ IH]; csimpl; [done|]. by rewrite Hxy, IH. Qed.

(** The raw entries behind the records, in the order of [getAll]. *)
Lemma getAll_raws (data : TypingsVersionsRaw) this :
  new data = Some this ->
  TypingsData.data <$> getAll this
  = omap (fun v => Object_get data (keyOf v)) (versions this).
Proof.
  intros Hnew. symmetry. apply omap_Forall2.
  apply Forall2_same_length_lookup. split.
  { rewrite length_fmap. symmetry. by eapply length_getAll. }
  intros i v raw Hv Hraw.
  destruct (record_at data this i v Hnew Hv) as (raw' & Hraw' & _ & Hall).
  rewrite list_lookup_fmap, Hall in Hraw. simpl in Hraw. congruence.
Qed.

(** X1: the version set keeps every raw entry exactly once: the raw data
    behind the records of [getAll] are a permutation of the entries of the
    raw mapping (whose keys, those of an object, are distinct), and there
    are as many records as entries. *)
Theorem getAll_Permutation (data : TypingsVersionsRaw) this :
  new data = Some this ->
  NoDup (Object_keys data) ->
  TypingsData.data <$> getAll this ≡ₚ data.*2 /\
  length (getAll this) = length data.
Proof.
  intros Hnew Hkeys. split; last first.
  { rewrite (length_getAll data this Hnew). by apply length_versions. }
  rewrite (getAll_raws data this Hnew).
  destruct (new_inv data this Hnew) as (-> & _).
  rewrite sortedVersions_Permutation.
  erewrite omap_Forall2; [done|].
  apply Forall2_same_length_lookup. split.
  { unfold Object_keys. by rewrite length_imap, !length_fmap. }
  intros i v raw Hv Hraw.
  apply list_lookup_imap_Some in Hv as (key & Hkey & ->).
  unfold Object_keys in Hkey.
  rewrite list_lookup_fmap in Hkey. rewrite list_lookup_fmap in Hraw.
  revert Hkey Hraw.
  destruct (_ !! i) as [[key' raw']|] eqn:Hentry; simpl; [|done].
  intros [= ->] [= ->].
  replace (keyOf (parseKey i key)) with key by (by destruct key).
  by eapply Object_get_lookup.
Qed.

Lemma getAll_Permutation_witness :
  exists this,
    new widget = Some this /\
    TypingsData.data <$> getAll this ≡ₚ widget.*2.
Proof.
  exists (default {| map := []; versions := [] |} (new widget)).
  split; [reflexivity|].
  apply getAll_Permutation; [reflexivity|].
  apply (bool_decide_unpack _). vm_compute. exact I.
Defined.

(** Versions parsed from distinct keys at distinct positions differ. *)
Lemma sortedVersions_keyOf_inj (data : TypingsVersionsRaw) v w :
  NoDup (Object_keys data) ->
  v ∈ sortedVersions data -> w ∈ sortedVersions data ->
  keyOf v = keyOf w -> v = w.
Proof.
  intros Hkeys Hv Hw Heq. rewrite sortedVersions_Permutation in Hv, Hw.
  apply elem_of_lookup_imap in Hv as (i & kv & -> & Hi).
  apply elem_of_lookup_imap in Hw as (j & kw & -> & Hj).
  assert (kv = kw) as -> by (destruct kv, kw; exact Heq).
  by rewrite (NoDup_lookup _ i j kw Hkeys Hi Hj).
Qed.

(** X2: the versions of a set are sorted strictly, newest first: of two
    positions the later one holds a strictly smaller (major, minor) key;
    no two positions tie. *)
Theorem versions_strictly_sorted (data : TypingsVersionsRaw) this i j vi vj :
  new data = Some this ->
  NoDup (Object_keys data) ->
  i < j ->
  versions this !! i = Some vi -> versions this !! j = Some vj ->
  VersionKey_le (keyOf vj) (keyOf vi) /\ keyOf vj <> keyOf vi.
Proof.
  intros Hnew Hkeys Hij Hi Hj.
  destruct (new_inv data this Hnew) as (Hvs & _). rewrite Hvs in Hi, Hj.
  split.
  - eapply (sortedVersions_sorted data i j); [lia|done..].
  - intros Heq.
    assert (vj = vi) as ->.
    { eapply sortedVersions_keyOf_inj; [done|..|done];
        by eapply list_elem_of_lookup_2. }
    pose proof (NoDup_lookup _ i j vi (sortedVersions_NoDup data) Hi Hj).
    lia.
Qed.

Lemma versions_strictly_sorted_witness :
  VersionKey_le (2, 1)%N (2, 3)%N /\ (2, 1)%N <> (2, 3)%N.
Proof.
  apply (versions_strictly_sorted widget
           (default {| map := []; versions := [] |} (new widget)) 0 1
           (parseKey 1 (2, 3)%N) (parseKey 2 (2, 1)%N)).
  - reflexivity.
  - apply (bool_decide_unpack _). vm_compute. exact I.
  - lia.
  - reflexivity.
  - reflexivity.
Defined.

(** Which versioned requests find a record. *)
Lemma tryGetLatestMatch_is_Some (data : TypingsVersionsRaw) this version :
  new data = Some this ->
  is_Some (tryGetLatestMatch this version) <->
  exists key,
    key ∈ Object_keys data /\ key.1 = dir_major version /\
    (forall minor, dir_minor version = Some minor -> key.2 = minor).
Proof.
  intros Hnew.
  pose proof (tryGetLatestMatch_find data this version Hnew) as Hfind.
  destruct (new_inv data this Hnew) as (Hvs & _). split.
  - intros [record Hrecord].
    destruct (list_find _ _) as [[i v]|] eqn:Hfirst; [|congruence].
    apply list_find_Some in Hfirst as (Hv & Hmatch & _).
    apply matches_iff in Hmatch as [Hmajor Hminor].
    rewrite Hvs in Hv.
    apply list_elem_of_lookup_2, sortedVersions_elem_of in Hv as [Hkey _].
    by exists (keyOf v).
  - intros (key & (v & Hv & <-)%sortedVersions_key & Hmajor & Hminor).
    destruct (list_find _ _) as [[i w]|] eqn:Hfirst.
    + destruct Hfind as (raw & _ & _ & ->). by eexists.
    + apply list_find_None in Hfirst. rewrite Forall_forall in Hfirst.
      destruct (Hfirst v); [by rewrite Hvs|]. by apply matches_iff.
Qed.

(** X3: a versioned request is answered exactly when some key of the
    raw mapping has the requested major and, if a minor is requested, that
    minor; [get] then returns what [tryGet] finds, and throws "could not
    find version", with the caller's message, exactly when [tryGet] finds
    nothing. *)
Theorem tryGet_answered_iff (data : TypingsVersionsRaw) this version
    (errorMessage : option string) :
  new data = Some this ->
  (is_Some (tryGet this (Version version)) <->
   exists key,
     key ∈ Object_keys data /\ key.1 = dir_major version /\
     (forall minor, dir_minor version = Some minor -> key.2 = minor)) /\
  (forall record,
     tryGet this (Version version) = Some record <->
     get this (Version version) errorMessage = Ok (Some record)) /\
  (tryGet this (Version version) = None <->
   get this (Version version) errorMessage
   = Throw (CouldNotFindVersion version errorMessage)).
Proof.
  intros Hnew. split_and!.
  - by apply tryGetLatestMatch_is_Some.
  - intros record. simpl. unfold getLatestMatch.
    destruct (tryGetLatestMatch this version); simpl; split; congruence.
  - simpl. unfold getLatestMatch.
    destruct (tryGetLatestMatch this version); simpl; split; congruence.
Qed.

Lemma tryGet_answered_iff_witness :
  is_Some (tryGet (default {| map := []; versions := [] |} (new widget))
             (Version {| dir_major := 2; dir_minor := None |}))
  <-> exists key : VersionKey,
      key ∈ Object_keys widget /\ key.1 = 2%N /\
      (forall minor, @None N = Some minor -> key.2 = minor).
Proof.
  apply (tryGet_answered_iff widget
           (default {| map := []; versions := [] |} (new widget))
           {| dir_major := 2; dir_minor := None |} None).
  reflexivity.
Defined.

(** X4: a record answered by [tryGet] is flagged [isLatest] exactly when
    it is the record [getLatest] returns. *)
Theorem tryGet_isLatest_iff (data : TypingsVersionsRaw) this version record :
  new data = Some this ->
  tryGet this version = Some record ->
  TypingsData.isLatest record = true <-> getLatest this = Some record.
Proof.
  intros Hnew Htry.
  destruct (tryGet_stored data this version record Hnew Htry)
    as (i & v & Hv & _ & Hall & _).
  destruct (record_at data this i v Hnew Hv) as (raw & _ & Hget & Hall').
  assert (record = TypingsData.new raw (isZero i)) as -> by congruence.
  split.
  - simpl. intros Hzero. destruct i as [|i]; [|done].
    unfold getLatest. rewrite Hv. exact Hget.
  - unfold getLatest. intros Hlatest.
    destruct (versions this !! 0) as [v0|] eqn:Hv0; [|done].
    destruct (record_at data this 0 v0 Hnew Hv0) as (raw0 & _ & Hget0 & _).
    simpl in Hlatest. rewrite Hget0 in Hlatest. by injection Hlatest as <-.
Qed.

Lemma tryGet_isLatest_iff_witness :
  TypingsData.isLatest (TypingsData.new (sampleRaw "widget" 2 1) false) = true
  <-> getLatest (default {| map := []; versions := [] |} (new widget))
      = Some (TypingsData.new (sampleRaw "widget" 2 1) false).
Proof.
  apply (tryGet_isLatest_iff widget _
           (Version {| dir_major := 2; dir_minor := Some 1%N |}));
    reflexivity.
Defined.

End VersionSetInvariants.

(** ** More on the registry *)

Section RegistryInvariants.
Import AllPackages.

Lemma mapValues_lookup {V1 V2} (m : list (string * V1))
    (f : V1 -> option V2) (m' : list (string * V2)) (k : string) :
  mapValues m f = Some m' ->
  m'.*1 = m.*1 /\ Object_get m' k = Object_get m k ≫= f.
Proof.
  unfold mapValues. intros Hm%mapM_Some.
  induction Hm as [|[k1 v1] [k2 v2] m m' Hkv _ [IHkeys IH]]; [done|].
  simpl in Hkv. destruct (f v1) as [v|] eqn:Hv; [|done].
  simpl in Hkv. injection Hkv as <- <-. simpl. split; [by f_equal|].
  case_decide; [simpl; by rewrite Hv|done].
Qed.

(** The registry built from a data file whose package names are distinct. *)
Lemma from_spec (file : TypesDataFile) (notNeeded' : list NotNeededPackage.t) :
  NoDup (Object_keys file) ->
  exists this,
    from file notNeeded' = Some this /\
    notNeeded this = notNeeded' /\
    (data this).*1 = Object_keys file /\
    (forall name,
       Map_get (data this) name
       = Object_get file name ≫= TypingsVersions.new).
Proof.
  intros Hkeys. unfold from, Object_entries.
  rewrite Map_new_NoDup by done.
  assert (is_Some (mapValues file TypingsVersions.new)) as [data' Hdata].
  { unfold mapValues. apply mapM_is_Some, Forall_forall.
    intros [name raws] _. unfold compose. simpl.
    destruct (new_spec raws) as (versions & -> & _). by eexists. }
  rewrite Hdata. simpl. eexists. split; [done|]. simpl.
  split; [done|].
  split; [by apply (mapValues_lookup _ _ _ "" Hdata)|].
  intros name. by apply mapValues_lookup.
Qed.

Lemma from_inv (file : TypesDataFile) notNeeded' this :
  NoDup (Object_keys file) ->
  from file notNeeded' = Some this ->
  notNeeded this = notNeeded' /\
  (data this).*1 = Object_keys file /\
  (forall name,
     Map_get (data this) name = Object_get file name ≫= TypingsVersions.new).
Proof.
  intros Hkeys Hfrom.
  destruct (from_spec file notNeeded' Hkeys) as (this' & Hfrom' & Hspec).
  by replace this with this' by congruence.
Qed.

(** X5: from a data file whose version keys are made of numbers
    [semver] accepts, [from] builds a registry; the registry keeps the
    package names in their order and the not-needed list as given, and a
    lookup by name finds the version set built from that name's raw
    entry, or nothing when the file has no such entry. *)
Theorem from_lookup (file : TypesDataFile)
    (notNeeded' : list NotNeededPackage.t) :
  NoDup (Object_keys file) ->
  safeFile file ->
  exists this,
    from file notNeeded' = Some this /\
    allNotNeeded this = notNeeded' /\
    (data this).*1 = Object_keys file /\
    (forall name,
       Map_get (data this) name
       = Object_get file name ≫= TypingsVersions.new) /\
    (forall name, mangle name ∉ Object_keys file ->
       tryGetLatestVersion this name = None).
Proof.
  intros Hkeys _.
  destruct (from_spec file notNeeded' Hkeys) as (this & Hfrom & Hnn & Hk & Hget).
  exists this. split_and!; try done.
  intros name Hname. unfold tryGetLatestVersion. rewrite Hget.
  destruct (Object_get file (mangle name)) as [raws|] eqn:Hraws; [|done].
  by apply Object_get_key in Hraws.
Qed.

Lemma from_lookup_witness :
  exists this,
    from sampleFile [] = Some this /\
    Map_get (data this) "foo"
    = Object_get sampleFile "foo" ≫= TypingsVersions.new.
Proof.
  destruct (from_lookup sampleFile []) as (this & Hfrom & _ & _ & Hget & _).
  { apply (bool_decide_unpack _). vm_compute. exact I. }
  { repeat (constructor; [repeat (constructor; [by vm_compute|])|]);
      constructor. }
  exists this. split; [done|]. apply Hget.
Defined.

(** The latest record of a constructed version set is flagged latest. *)
Lemma getLatest_flagged (raws : TypingsVersions.TypingsVersionsRaw) versions r :
  TypingsVersions.new raws = Some versions ->
  TypingsVersions.getLatest versions = Some r ->
  TypingsData.isLatest r = true.
Proof.
  intros Hnew. unfold TypingsVersions.getLatest.
  destruct (TypingsVersions.versions versions !! 0) as [v|] eqn:Hv; [|done].
  destruct (record_at raws versions 0 v Hnew Hv) as (raw & _ & Hget & _).
  simpl. rewrite Hget. by intros [= <-].
Qed.

(** X6: in a registry built from a data file, [getLatest] only ever
    returns a record flagged latest, and returns such a record unchanged,
    so applying it twice changes nothing; it fails only for a record not
    flagged latest, with "no such package" for that record's name. *)
Theorem getLatest_returns_latest (file : TypesDataFile)
    notNeeded' this (pkg : TypingsData.t) :
  NoDup (Object_keys file) ->
  from file notNeeded' = Some this ->
  (forall r, getLatest this pkg = Returns r ->
     TypingsData.isLatest r = true /\ getLatest this r = Returns r) /\
  (forall f, getLatest this pkg = Fails f ->
     TypingsData.isLatest pkg = false /\
     f = NoSuchPackage (TypingsData.name pkg)).
Proof.
  intros Hkeys Hfrom.
  destruct (from_inv file notNeeded' this Hkeys Hfrom) as (_ & _ & Hget).
  unfold getLatest, getLatestVersion, tryGetLatestVersion.
  destruct (TypingsData.isLatest pkg) eqn:Hlatest.
  { split; [|done]. intros r [= <-]. by rewrite Hlatest. }
  rewrite Hget.
  destruct (Object_get file (mangle (TypingsData.name pkg))) as [raws|];
    simpl; [|split; [done|by intros f [= <-]]].
  destruct (TypingsVersions.new raws) as [versions|] eqn:Hnew;
    simpl; [|split; [done|by intros f [= <-]]].
  destruct (TypingsVersions.getLatest versions) as [r|] eqn:Hr;
    [|split; [done|by intros f [= <-]]].
  split; [|done]. intros r' [= <-].
  pose proof (getLatest_flagged raws versions r Hnew Hr) as Hflag.
  by rewrite Hflag.
Qed.

Lemma getLatest_returns_latest_witness :
  TypingsData.isLatest (TypingsData.new (sampleRaw "foo" 2 0) true) = true /\
  getLatest sampleRegistry (TypingsData.new (sampleRaw "foo" 2 0) true)
  = Returns (TypingsData.new (sampleRaw "foo" 2 0) true).
Proof.
  apply (proj1 (getLatest_returns_latest sampleFile [] sampleRegistry
                  (TypingsData.new (sampleRaw "foo" 1 4) false)
                  ltac:(apply (bool_decide_unpack _); vm_compute; exact I)
                  eq_refl)).
  reflexivity.
Defined.

(** X7: what [resolve] does, read off the data file the registry was
    built from.  Without an entry for the mangled name it throws "no
    typings found"; for the wildcard it succeeds unless the entry has no
    version at all, where reading [id] of [undefined] fails; for a
    version it succeeds when some key of the entry matches and throws
    "could not find version" otherwise. *)
Theorem resolve_outcomes (file : TypesDataFile) notNeeded' this
    (dep : PackageId.t) :
  NoDup (Object_keys file) ->
  from file notNeeded' = Some this ->
  match Object_get file (mangle (PackageId.name dep)) with
  | None => resolve this dep = Throw (NoTypingsFound (PackageId.name dep))
  | Some raws =>
      match PackageId.version dep with
      | Star =>
          (raws = [] -> resolve this dep = Throw TypeErrorUndefined) /\
          (raws <> [] -> exists id, resolve this dep = Ok id)
      | Version version =>
          let matched :=
            exists key,
              key ∈ Object_keys raws /\ key.1 = dir_major version /\
              (forall minor, dir_minor version = Some minor ->
                             key.2 = minor) in
          (matched -> exists id, resolve this dep = Ok id) /\
          (~ matched ->
           resolve this dep = Throw (CouldNotFindVersion version None))
      end
  end.
Proof.
  intros Hkeys Hfrom.
  destruct (from_inv file notNeeded' this Hkeys Hfrom) as (_ & _ & Hget).
  unfold resolve. rewrite Hget.
  destruct (Object_get file _) as [raws|]; simpl; [|done].
  destruct (new_spec raws) as (versions & Hnew & _). rewrite Hnew.
  destruct (PackageId.version dep) as [|version]; simpl.
  - unfold TypingsVersions.getLatest.
    pose proof (length_versions raws versions Hnew) as Hlen. split.
    + intros ->. simpl in Hlen.
      destruct (TypingsVersions.versions versions); [done|discriminate].
    + intros Hraws.
      destruct (TypingsVersions.versions versions !! 0) as [v|] eqn:Hv.
      * destruct (record_at raws versions 0 v Hnew Hv)
          as (raw & _ & Hmap & _).
        simpl. rewrite Hmap. by eexists.
      * apply lookup_ge_None in Hv. destruct raws; [done|].
        simpl in Hlen. lia.
  - pose proof (tryGetLatestMatch_is_Some raws versions version Hnew)
      as Hsome.
    unfold TypingsVersions.getLatestMatch. split.
    + intros [record ->]%Hsome. simpl. by eexists.
    + intros Hnot.
      destruct (TypingsVersions.tryGetLatestMatch versions version)
        as [record|] eqn:Htry; [|done].
      destruct Hnot. apply Hsome. by eexists.
Qed.

Lemma resolve_outcomes_witness :
  resolve sampleRegistry
    {| PackageId.name := "missing"; PackageId.version := Star |}
  = Throw (NoTypingsFound "missing").
Proof.
  apply (resolve_outcomes sampleFile [] sampleRegistry
           {| PackageId.name := "missing"; PackageId.version := Star |}).
  - apply (bool_decide_unpack _). vm_compute. exact I.
  - reflexivity.
Defined.

(** X8: [hasTypingFor] is true exactly when [resolve] succeeds, and
    exactly when [getTypingsData] returns a record; [resolve] then gives
    the id of that record. *)
Theorem hasTypingFor_iff (this : AllPackages.t) (dep : PackageId.t) :
  (hasTypingFor this dep = true <-> exists id, resolve this dep = Ok id) /\
  (hasTypingFor this dep = true <->
   exists pkg, getTypingsData this dep = Returns pkg) /\
  (hasTypingFor this dep = false <->
   getTypingsData this dep = Fails (NoTypingsAvailable dep)) /\
  (forall pkg, getTypingsData this dep = Returns pkg ->
     resolve this dep = Ok (TypingsData.id pkg)).
Proof.
  assert (match tryGetTypingsData this dep with
          | Some pkg => resolve this dep = Ok (TypingsData.id pkg)
          | None => exists e, resolve this dep = Throw e
          end) as Hresolve.
  { unfold resolve, tryGetTypingsData.
    destruct (Map_get _ _) as [versions|]; simpl; [|by eauto].
    destruct (PackageId.version dep) as [|version]; simpl.
    - destruct (TypingsVersions.getLatest versions); simpl; by eauto.
    - unfold TypingsVersions.getLatestMatch.
      destruct (TypingsVersions.tryGetLatestMatch versions version);
        simpl; by eauto. }
  unfold hasTypingFor, getTypingsData.
  rewrite bool_decide_eq_true, bool_decide_eq_false.
  destruct (tryGetTypingsData this dep) as [pkg|].
  - split_and!.
    + split; by eauto.
    + split; by eauto.
    + split; [|done]. intros Hnone. destruct Hnone. by eexists.
    + by intros ? [= <-].
  - destruct Hresolve as [e He]. split_and!.
    + split; [by intros [? ?]|]. intros [id Hid]. congruence.
    + split; [by intros [? ?]|]. by intros [? ?].
    + split; [done|]. intros _ [? ?]. done.
    + done.
Qed.

Lemma length_uniqueFrom `{EqDecision A} (seen arr : list A) :
  length (uniqueFrom seen arr) <= length arr.
Proof.
  revert seen. induction arr as [|x arr IH]; intros seen; simpl; [done|].
  case_decide; [specialize (IH seen)|specialize (IH (x :: seen))]; simpl; lia.
Qed.

Lemma uniqueFrom_all `{EqDecision A} (seen arr : list A) :
  length (uniqueFrom seen arr) = length arr <->
  NoDup arr /\ (forall x, x ∈ arr -> x ∉ seen).
Proof.
  revert seen. induction arr as [|x arr IH]; intros seen; simpl.
  { split; [|done]. intros _. split; [constructor|]. by intros ? ?%elem_of_nil. }
  case_decide as Hseen.
  - pose proof (length_uniqueFrom seen arr). split; [lia|].
    intros [_ Hfresh]. destruct (Hfresh x); [left|done].
  - simpl. rewrite Nat.succ_inj_wd, IH, NoDup_cons. split.
    + intros [Hnd Hfresh]. split_and!; [|done|].
      * intros Hx. apply (Hfresh x Hx). left.
      * intros y [->|Hy]%elem_of_cons; [done|].
        intros Hy'. apply (Hfresh y Hy). by right.
    + intros [[Hx Hnd] Hfresh]. split; [done|].
      intros y Hy [->|Hy']%elem_of_cons; [done|].
      apply (Hfresh y); [by right|done].
Qed.

(** X9: [hasSeparateMinorVersions] fails for a name without a version
    set; otherwise it is true exactly when two records of the set have
    the same minor, whatever their majors. *)
Theorem hasSeparateMinorVersions_iff (this : AllPackages.t) (name : string) :
  match Map_get (data this) (mangle name) with
  | None => hasSeparateMinorVersions this name = Throw AssertionError
  | Some versions =>
      exists b,
        hasSeparateMinorVersions this name = Ok b /\
        (b = true <->
         ~ NoDup (TypingsData.minor <$> TypingsVersions.getAll versions))
  end.
Proof.
  unfold hasSeparateMinorVersions.
  destruct (Map_get _ _) as [versions|]; simpl; [|done].
  eexists. split; [done|].
  rewrite negb_true_iff, Nat.eqb_neq. unfold unique.
  split.
  - intros Hlen Hnd. apply Hlen. symmetry. apply uniqueFrom_all.
    split; [done|]. by intros ? _ ?%elem_of_nil.
  - intros Hdup Hlen. apply Hdup. symmetry in Hlen.
    by apply uniqueFrom_all in Hlen as [? _].
Qed.

(** Majors 1 and 2 with the same minor: true.  Minors 1 and 2 of the
    same major: false. *)
Example hasSeparateMinorVersions_same_minor :
  (this ← from [("p", [((1, 0)%N, sampleRaw "p" 1 0);
                        ((2, 0)%N, sampleRaw "p" 2 0)])] [];
   Some (hasSeparateMinorVersions this "p"))
  = Some (Ok true).
Proof. vm_compute. reflexivity. Qed.

Example hasSeparateMinorVersions_same_major :
  (this ← from [("p", [((14, 1)%N, sampleRaw "p" 14 1);
                        ((14, 2)%N, sampleRaw "p" 14 2)])] [];
   Some (hasSeparateMinorVersions this "p"))
  = Some (Ok false).
Proof. vm_compute. reflexivity. Qed.

(** X10: [readSingle] returns a record exactly for a name that is a key
    of the data file with a single version, and the record is that
    version flagged latest: the record the registry built from the same
    file gives as the latest version of that name, for a name that is its
    own mangled form.  It fails with "can't find package" for a name that
    is neither a key nor a member of [Object.prototype], with "multiple
    versions" for a package of two or more versions, and on reading
    [libraryName] of [undefined] for a package without a version or a name
    [Object.prototype] defines. *)
Theorem readSingle_agrees (file : TypesDataFile) notNeeded' this
    (name : string) :
  NoDup (Object_keys file) ->
  from file notNeeded' = Some this ->
  (name ∉ Object_keys file -> name ∉ inheritedMembers ->
   readSingle file name = Fails (CantFindPackage name)) /\
  (forall raws, Object_get file name = Some raws -> 2 <= length raws ->
     readSingle file name = Fails (MultipleVersions name)) /\
  (Object_get file name = Some []
   \/ ((name ∉ Object_keys file) /\ (name ∈ inheritedMembers)) ->
   readSingle file name = Fails (Thrown TypeErrorUndefined)) /\
  (forall pkg,
     readSingle file name = Returns pkg <->
     exists key raw,
       Object_get file name = Some [(key, raw)] /\
       pkg = TypingsData.new raw true) /\
  (forall pkg, readSingle file name = Returns pkg ->
     TypingsData.isLatest pkg = true /\
     (mangle name = name -> tryGetLatestVersion this name = Some pkg)).
Proof.
  intros Hkeys Hfrom.
  destruct (from_inv file notNeeded' this Hkeys Hfrom) as (_ & _ & Hget).
  assert (forall pkg,
            readSingle file name = Returns pkg <->
            exists key raw,
              Object_get file name = Some [(key, raw)] /\
              pkg = TypingsData.new raw true) as Hreturns.
  { intros pkg. unfold readSingle, Object_read.
    destruct (Object_get file name) as [raws|] eqn:Hraws.
    - rewrite length_fmap.
      destruct raws as [|[key raw] [|? ?]]; simpl.
      + split; [done|]. by intros (? & ? & [=] & _).
      + split.
        * intros [= <-]. by exists key, raw.
        * by intros (? & ? & [= -> ->] & ->).
      + split; [done|]. by intros (? & ? & [=] & _).
    - split; [|by intros (? & ? & [=] & _)].
      by destruct (bool_decide (name ∈ inheritedMembers)). }
  split_and!.
  - intros Hname Hmember. unfold readSingle, Object_read.
    destruct (Object_get file name) as [raws|] eqn:Hraws.
    { by apply Object_get_key in Hraws. }
    by rewrite bool_decide_eq_false_2.
  - intros raws Hraws Hlen. unfold readSingle, Object_read.
    rewrite Hraws, length_fmap.
    by rewrite (proj2 (Nat.ltb_lt 1 (length raws))) by lia.
  - unfold readSingle, Object_read. intros [->|[Hname Hmember]]; [done|].
    destruct (Object_get file name) as [raws|] eqn:Hraws.
    { by apply Object_get_key in Hraws. }
    by rewrite bool_decide_eq_true_2.
  - exact Hreturns.
  - intros pkg (key & raw & Hraws & ->)%Hreturns. split; [done|].
    intros Hmangle.
    unfold tryGetLatestVersion. rewrite Hmangle, Hget, Hraws. simpl.
    destruct (new_spec [(key, raw)]) as (versions & Hnew & _).
    rewrite Hnew. simpl. unfold TypingsVersions.getLatest.
    pose proof (length_versions _ versions Hnew) as Hlen'. simpl in Hlen'.
    destruct (TypingsVersions.versions versions !! 0) as [v|] eqn:Hv;
      last first.
    { apply lookup_ge_None in Hv. lia. }
    destruct (record_at _ versions 0 v Hnew Hv) as (raw' & Hraw' & Hmap & _).
    simpl. rewrite Hmap. simpl in Hraw'.
    case_decide; [|done]. by injection Hraw' as <-.
Qed.

Lemma readSingle_agrees_witness :
  readSingle sampleFile "constructor" = Fails (Thrown TypeErrorUndefined) /\
  (TypingsData.isLatest (TypingsData.new (sampleRaw "scope__pkg" 7 2) true)
   = true /\
   (mangle "scope__pkg" = "scope__pkg" ->
    tryGetLatestVersion sampleRegistry "scope__pkg"
    = Some (TypingsData.new (sampleRaw "scope__pkg" 7 2) true))).
Proof.
  split.
  - apply (proj1 (proj2 (proj2 (readSingle_agrees sampleFile []
                    sampleRegistry "constructor"
                    ltac:(apply (bool_decide_unpack _); vm_compute; exact I)
                    eq_refl)))).
    right. split; apply (bool_decide_unpack _); vm_compute; exact I.
  - apply (proj2 (proj2 (proj2 (proj2 (readSingle_agrees sampleFile []
                    sampleRegistry "scope__pkg"
                    ltac:(apply (bool_decide_unpack _); vm_compute; exact I)
                    eq_refl))))).
    reflexivity.
Defined.

Lemma length_Gen_yields_seq {A} (g1 g2 : Gen A) :
  length (Gen_yields (Gen_seq g1 g2))
  <= length (Gen_yields g1) + length (Gen_yields g2).
Proof. induction g1 as [|a rest IH|e]; simpl; lia. Qed.

Lemma length_Gen_yields_yield {A} (m : Exc A) (rest : Gen A) :
  length (Gen_yields (Gen_yield m rest)) <= S (length (Gen_yields rest)).
Proof. destruct m; simpl; lia. Qed.

Lemma length_dependencyTypings (this : AllPackages.t) (pkg : TypingsData.t)
    (entries : list (string * DependencyVersion)) :
  length (Gen_yields (dependencyTypings this pkg entries)) <= length entries.
Proof.
  induction entries as [|[name version] rest IH]; simpl; [done|].
  destruct (Map_get _ _); [|lia].
  etransitivity; [apply length_Gen_yields_yield|lia].
Qed.

Lemma length_testDependencyTypings (this : AllPackages.t)
    (pkg : TypingsData.t) (names : list string) :
  length (Gen_yields (testDependencyTypings this pkg names)) <= length names.
Proof.
  induction names as [|name rest IH]; simpl; [done|].
  destruct (Map_get _ _); [|lia].
  etransitivity; [apply length_Gen_yields_yield|lia].
Qed.

(** X11: [allDependencyTypings] yields at most one record per declared
    dependency and per test dependency; when none of these names has a
    version set it yields nothing and returns without throwing. *)
Theorem allDependencyTypings_bounded (this : AllPackages.t)
    (pkg : TypingsData.t) :
  length (Gen_yields (allDependencyTypings this pkg))
  <= length (TypingsData.dependencies pkg)
     + length (TypingsData.testDependencies pkg) /\
  ((forall name,
      name ∈ (TypingsData.dependencies pkg).*1
             ++ TypingsData.testDependencies pkg ->
      Map_get (data this) (mangle name) = None) ->
   allDependencyTypings this pkg = GDone).
Proof.
  unfold allDependencyTypings, Object_entries. split.
  - etransitivity; [apply length_Gen_yields_seq|].
    apply Nat.add_le_mono;
      [apply length_dependencyTypings|apply length_testDependencyTypings].
  - intros Hnone.
    assert (dependencyTypings this pkg (TypingsData.dependencies pkg)
            = GDone) as ->.
    { assert (forall name, name ∈ (TypingsData.dependencies pkg).*1 ->
                Map_get (data this) (mangle name) = None) as Hdeps
        by (intros name Hname; apply Hnone, elem_of_app; by left).
      clear Hnone.
      induction (TypingsData.dependencies pkg) as [|[name version] rest IH];
        [done|].
      simpl. rewrite Hdeps by left. apply IH.
      intros ? ?. apply Hdeps. by right. }
    simpl.
    assert (forall name, name ∈ TypingsData.testDependencies pkg ->
              Map_get (data this) (mangle name) = None) as Htests
      by (intros name Hname; apply Hnone, elem_of_app; by right).
    clear Hnone.
    induction (TypingsData.testDependencies pkg) as [|name rest IH];
      [done|].
    simpl. rewrite Htests by left. apply IH.
    intros ? ?. apply Htests. by right.
Qed.

End RegistryInvariants.

(** ** More on not-needed packages *)

Section NotNeededInvariants.
Import NotNeededPackage.
Variable toLowerCase : string -> string.
Variable parseSemVer : string -> option SemVer.t.

Local Abbreviation fromRaw :=
  (NotNeededPackage.fromRaw toLowerCase parseSemVer).
Local Abbreviation readNotNeededPackages :=
  (NotNeededPackage.readNotNeededPackages toLowerCase parseSemVer).
Local Abbreviation readSingleNotNeeded :=
  (NotNeededPackage.readSingleNotNeeded toLowerCase parseSemVer).

Lemma checkKeys_Ok_inv keys :
  checkKeys keys = Ok tt -> Forall (fun key => allowedKey key = true) keys.
Proof.
  induction keys as [|key keys IH]; simpl; [by constructor|].
  destruct (allowedKey key) eqn:Hkey; simpl; [|done].
  intros Hrest. constructor; auto.
Qed.

Lemma fromRaw_Ok (name' : string) (raw : NotNeededPackageRaw) pkg :
  fromRaw name' raw = Ok pkg ->
  name pkg = name' /\
  name' = toLowerCase name' /\ name' <> "" /\
  Object_get raw "libraryName" = Some (libraryName pkg) /\
  libraryName pkg = toLowerCase (libraryName pkg) /\
  libraryName pkg <> "" /\
  Forall (fun key => key ∈ ["libraryName"; "sourceRepoURL"; "asOfVersion"])
    (Object_keys raw) /\
  exists asOfVersion,
    Object_get raw "asOfVersion" = Some asOfVersion /\
    asOfVersion <> "" /\
    parseSemVer asOfVersion = Some (version pkg).
Proof.
  unfold NotNeededPackage.fromRaw.
  destruct (negb (String.eqb name' (toLowerCase name'))) eqn:Hname; [done|].
  apply negb_false_iff, String.eqb_eq in Hname.
  destruct (checkKeys (Object_keys raw)) as [[]|] eqn:Hkeys; simpl; [|done].
  apply checkKeys_Ok_inv in Hkeys.
  destruct (Object_get raw "libraryName") as [library|]; [|done].
  destruct (negb (String.eqb library (toLowerCase library))) eqn:Hlibrary;
    [done|].
  apply negb_false_iff, String.eqb_eq in Hlibrary.
  unfold new.
  destruct (Object_get raw "asOfVersion") as [asOfVersion|]; [|done].
  destruct (truthy library && truthy name' && truthy asOfVersion)
    eqn:Htruthy; [|done].
  apply andb_true_iff in Htruthy as [[Hl Hn]%andb_true_iff Hv].
  unfold truthy in Hl, Hn, Hv.
  apply negb_true_iff, String.eqb_neq in Hl, Hn, Hv.
  destruct (parseSemVer asOfVersion) as [v|] eqn:Hparse; [|done].
  intros [= <-]. simpl. split_and!; try done.
  - eapply Forall_impl; [exact Hkeys|].
    intros key Hkey. unfold allowedKey in Hkey. simpl in Hkey.
    rewrite !orb_true_iff, !String.eqb_eq in Hkey.
    rewrite !elem_of_cons. intuition discriminate.
  - by exists asOfVersion.
Qed.

(** X12: a package built by [fromRaw] keeps the invariants of the
    checks: its name is the given name, lower-case and non-empty; its
    library name is the raw entry's, lower-case and non-empty; the raw
    entry has no key beyond the three allowed; its version is the parse
    of the entry's non-empty [asOfVersion]. *)
Theorem fromRaw_invariants (name' : string) (raw : NotNeededPackageRaw) pkg :
  fromRaw name' raw = Ok pkg ->
  name pkg = name' /\
  name' = toLowerCase name' /\ name' <> "" /\
  Object_get raw "libraryName" = Some (libraryName pkg) /\
  libraryName pkg = toLowerCase (libraryName pkg) /\
  libraryName pkg <> "" /\
  Forall (fun key => key ∈ ["libraryName"; "sourceRepoURL"; "asOfVersion"])
    (Object_keys raw) /\
  exists asOfVersion,
    Object_get raw "asOfVersion" = Some asOfVersion /\
    asOfVersion <> "" /\
    parseSemVer asOfVersion = Some (version pkg).
Proof. apply fromRaw_Ok. Qed.

Lemma readNotNeededPackages_Ok entries pkgs :
  readNotNeededPackages entries = Ok pkgs ->
  Forall2 (fun entry pkg => fromRaw entry.1 entry.2 = Ok pkg) entries pkgs.
Proof.
  revert pkgs. induction entries as [|[name' raw] entries IH]; intros pkgs;
    simpl.
  { intros [= <-]. constructor. }
  destruct (fromRaw name' raw) as [pkg|] eqn:Hpkg; simpl; [|done].
  destruct (readNotNeededPackages entries) as [rest|]; simpl; [|done].
  intros [= <-]. constructor; auto.
Qed.

(** X13: [readNotNeededPackages] is all or nothing.  When it returns,
    there is one package per entry, in order, each the result of
    [fromRaw] on its entry, and the names of the packages are the keys of
    the entries.  When it throws, the error is that of the first entry
    [fromRaw] rejects. *)
Theorem readNotNeededPackages_all_or_nothing
    (entries : list (string * NotNeededPackageRaw)) :
  match readNotNeededPackages entries with
  | Ok pkgs =>
      Forall2 (fun entry pkg => fromRaw entry.1 entry.2 = Ok pkg)
        entries pkgs /\
      name <$> pkgs = entries.*1
  | Throw e =>
      exists i entry,
        entries !! i = Some entry /\
        fromRaw entry.1 entry.2 = Throw e /\
        forall j entry', j < i -> entries !! j = Some entry' ->
          exists pkg, fromRaw entry'.1 entry'.2 = Ok pkg
  end.
Proof.
  destruct (readNotNeededPackages entries) as [pkgs|e] eqn:Hread.
  - apply readNotNeededPackages_Ok in Hread. split; [done|].
    induction Hread as [|[name' raw] pkg entries pkgs Hpkg _ IH]; [done|].
    rewrite !fmap_cons, IH. simpl in Hpkg.
    by apply fromRaw_Ok in Hpkg as [-> _].
  - revert e Hread. induction entries as [|[name' raw] entries IH];
      intros e; simpl; [done|].
    destruct (fromRaw name' raw) as [pkg|e'] eqn:Hpkg; simpl.
    + destruct (readNotNeededPackages entries) as [rest|e''] eqn:Hrest;
        simpl; [done|].
      intros [= <-]. destruct (IH e'' eq_refl) as (i & entry & Hi & He & Hbefore).
      exists (S i), entry. split_and!; [done..|].
      intros [|j] entry' Hj Hentry'; simpl in Hentry'.
      * injection Hentry' as <-. by exists pkg.
      * apply (Hbefore j); [lia|done].
    + intros [= <-]. exists 0, (name', raw). split_and!; [done..|].
      intros j ? Hj. lia.
Qed.

(** X14: looking a not-needed package up by name.  When every entry is
    accepted, [readSingleNotNeeded] returns, for a name that is a key of
    the entries, the package [fromRaw] builds from the entry of that
    name, and fails with "cannot find not-needed package" for any other
    name; [getNotNeededPackage] of a registry holding the packages read
    finds the same package, and nothing for any other name. *)
Theorem readSingleNotNeeded_lookup
    (entries : list (string * NotNeededPackageRaw)) pkgs (name' : string)
    (registry : AllPackages.t) :
  readNotNeededPackages entries = Ok pkgs ->
  AllPackages.notNeeded registry = pkgs ->
  match Object_get entries name' with
  | Some raw =>
      exists pkg,
        fromRaw name' raw = Ok pkg /\
        readSingleNotNeeded name' entries = Returns pkg /\
        AllPackages.getNotNeededPackage registry name' = Some pkg
  | None =>
      readSingleNotNeeded name' entries = Fails (CannotFindNotNeeded name') /\
      AllPackages.getNotNeededPackage registry name' = None
  end.
Proof.
  intros Hread Hregistry. unfold NotNeededPackage.readSingleNotNeeded.
  unfold AllPackages.getNotNeededPackage.
  rewrite Hregistry, Hread. clear Hregistry. apply readNotNeededPackages_Ok in Hread.
  unfold Array_find.
  induction Hread as [|[key raw] pkg entries pkgs Hpkg _ IH]; [done|].
  simpl in Hpkg. pose proof Hpkg as [Hname _]%fromRaw_Ok.
  cbn [Object_get list_find]. rewrite Hname.
  destruct (decide (key = name')) as [->|Hne].
  - rewrite decide_True by (by apply String.eqb_eq). simpl. by exists pkg.
  - rewrite decide_False by (by rewrite String.eqb_eq).
    destruct (Object_get entries name') as [raw'|].
    + destruct IH as (pkg' & Hpkg' & Hfind & Hget). exists pkg'.
      split; [done|].
      destruct (list_find _ pkgs) as [[i p]|]; simpl in *;
        split; congruence.
    + destruct IH as [Hfind Hget].
      destruct (list_find _ pkgs) as [[i p]|]; simpl in *;
        split; congruence.
Qed.

End NotNeededInvariants.

Lemma fromRaw_invariants_witness :
  NotNeededPackage.name
    {| NotNeededPackage.name := "foo";
       NotNeededPackage.libraryName := "foo";
       NotNeededPackage.version :=
         {| SemVer.ref := 0; SemVer.major := 1; SemVer.minor := 0;
            SemVer.patch := 0 |} |} = "foo".
Proof.
  apply (fromRaw_invariants sampleToLowerCase sampleParseSemVer "foo"
           [("libraryName", "foo"); ("asOfVersion", "1.0.0")]).
  reflexivity.
Defined.

Lemma readSingleNotNeeded_lookup_witness :
  exists pkg,
    NotNeededPackage.fromRaw sampleToLowerCase sampleParseSemVer "bar"
      [("libraryName", "bar"); ("asOfVersion", "2.1.0")] = Ok pkg /\
    NotNeededPackage.readSingleNotNeeded sampleToLowerCase sampleParseSemVer
      "bar"
      [("foo", [("libraryName", "foo"); ("asOfVersion", "1.0.0")]);
       ("bar", [("libraryName", "bar"); ("asOfVersion", "2.1.0")])]
    = Returns pkg /\
    AllPackages.getNotNeededPackage
      {| AllPackages.data := [];
         AllPackages.notNeeded :=
           [ {| NotNeededPackage.name := "foo";
                NotNeededPackage.libraryName := "foo";
                NotNeededPackage.version :=
                  {| SemVer.ref := 0; SemVer.major := 1; SemVer.minor := 0;
                     SemVer.patch := 0 |} |};
             {| NotNeededPackage.name := "bar";
                NotNeededPackage.libraryName := "bar";
                NotNeededPackage.version :=
                  {| SemVer.ref := 0; SemVer.major := 2; SemVer.minor := 1;
                     SemVer.patch := 0 |} |} ] |}
      "bar"
    = Some pkg.
Proof.
  refine (readSingleNotNeeded_lookup sampleToLowerCase sampleParseSemVer
            [("foo", [("libraryName", "foo"); ("asOfVersion", "1.0.0")]);
             ("bar", [("libraryName", "bar"); ("asOfVersion", "2.1.0")])]
            _ "bar" _ _ _); reflexivity.
Defined.

(** ** Licenses, names and paths *)

Section LicenseFacts.

Lemma License_of_string (s : string) :
  License_of (JsString s)
  = if String.eqb s "MIT" then Some MIT
    else if String.eqb s "Apache-2.0" then Some Apache20 else None.
Proof.
  unfold License_of, Array_find, allLicenses. cbn [list_find License_value].
  rewrite (String.eqb_sym "MIT" s), (String.eqb_sym "Apache-2.0" s).
  destruct (String.eqb s "MIT"); [by rewrite decide_True|].
  rewrite decide_False by done. simpl.
  destruct (String.eqb s "Apache-2.0"); [by rewrite decide_True|].
  by rewrite decide_False.
Qed.

(** X15: [getLicenseFromPackageJson] returns a license for exactly two
    inputs: MIT for [undefined], Apache-2.0 for the string "Apache-2.0".
    The string "MIT" is rejected as redundant, and every other value as
    unexpected. *)
Theorem getLicenseFromPackageJson_cases (packageJsonLicense : JsValue) :
  (forall license,
     getLicenseFromPackageJson packageJsonLicense = Returns license <->
     (packageJsonLicense = JsUndefined /\ license = MIT) \/
     (packageJsonLicense = JsString "Apache-2.0" /\ license = Apache20)) /\
  (getLicenseFromPackageJson packageJsonLicense = Fails RedundantLicense <->
   packageJsonLicense = JsString "MIT") /\
  (getLicenseFromPackageJson packageJsonLicense
   = Fails (UnexpectedLicense packageJsonLicense) <->
   packageJsonLicense <> JsUndefined /\
   packageJsonLicense <> JsString "MIT" /\
   packageJsonLicense <> JsString "Apache-2.0").
Proof.
  destruct packageJsonLicense as [|s|]; unfold getLicenseFromPackageJson.
  - split_and!; [intros license|..]; split; try done.
    + intros [= <-]. by left.
    + by intros [[_ ->]|[? _]].
    + by intros [? _].
  - rewrite License_of_string.
    destruct (String.eqb_spec s "MIT") as [->|Hmit].
    { split_and!; [intros license|..]; split; try done.
      - by intros [[? _]|[[=] _]].
      - by intros (_ & ? & _). }
    destruct (String.eqb_spec s "Apache-2.0") as [->|Hapache].
    { split_and!; [intros license|..]; split; try done.
      - intros [= <-]. by right.
      - by intros [[? _]|[_ ->]].
      - by intros (_ & _ & ?). }
    split_and!; [intros license|..]; split; try done.
    + intros [[? _]|[[= ->] _]]; done.
    + by intros [= ->].
    + intros _. split_and!; [done|..]; by intros [= ->].
  - split_and!; [intros license|..]; split; try done.
    by intros [[? _]|[? _]].
Qed.

End LicenseFacts.

Section PathFacts.
Import JsString.
Variable scopeName : string.
Variable typesDirectoryName : string.
Variable parseVersionFromDirectoryName :
  string -> option DirectoryParsedTypingVersion.

Local Abbreviation dependencyFromFile :=
  (getDependencyFromFile typesDirectoryName parseVersionFromDirectoryName).

Lemma split_nonempty sep s : split sep s <> [].
Proof.
  destruct s as [|c s]; simpl; [done|].
  destruct (Ascii.eqb c sep); [done|]. by destruct (split sep s).
Qed.

Lemma length_split sep s : length (split sep s) = S (count sep s).
Proof.
  induction s as [|c s IH]; simpl; [done|].
  rewrite (Ascii.eqb_sym sep c).
  destruct (Ascii.eqb c sep); simpl; [by rewrite IH|].
  destruct (split sep s); simpl in *; lia.
Qed.

Lemma split_first sep a b :
  count sep a = 0 ->
  split sep (a +:+ String sep b) = a :: split sep b.
Proof.
  induction a as [|c a IH]; intros Ha.
  - rewrite append_nil. simpl. by rewrite Ascii.eqb_refl.
  - rewrite append_cons. simpl in *. rewrite (Ascii.eqb_sym sep c) in Ha.
    destruct (Ascii.eqb c sep); [simpl in Ha; lia|].
    simpl in Ha. by rewrite IH.
Qed.

(** X16: [getDependencyFromFile] gives nothing for a path of fewer than
    three components.  For a path "dir/name/rest" it gives nothing unless
    "dir" is the types directory, and otherwise the package "name" with
    the version parsed from the first component of "rest", or with the
    wildcard when that component is empty or is no version directory. *)
Theorem getDependencyFromFile_cases (file : string) :
  (count "/" file <= 1 -> dependencyFromFile file = None) /\
  (forall dir name rest,
     file = dir +:+ "/" +:+ name +:+ "/" +:+ rest ->
     count "/" dir = 0 -> count "/" name = 0 ->
     let subDirName := hd EmptyString (split "/" rest) in
     dependencyFromFile file
     = if String.eqb dir typesDirectoryName
       then Some {| PackageId.name := name;
                    PackageId.version :=
                      match (if String.eqb subDirName "" then None
                             else parseVersionFromDirectoryName subDirName)
                      with
                      | Some version => Version version
                      | None => Star
                      end |}
       else None).
Proof.
  unfold getDependencyFromFile. split.
  - intros Hcount. rewrite length_split.
    by rewrite (proj2 (Nat.leb_le _ 2)) by lia.
  - intros dir name rest -> Hdir Hname. cbv zeta.
    rewrite !append_cons, !append_nil.
    rewrite (split_first "/" dir), (split_first "/" name) by done.
    pose proof (split_nonempty "/" rest) as Hrest.
    destruct (split "/" rest) as [|sub more] eqn:Hsplit; [done|].
    simpl hd. cbn [length Nat.leb].
    destruct (String.eqb dir typesDirectoryName); simpl; [|done].
    destruct (String.eqb sub ""); simpl; [done|].
    by destruct (parseVersionFromDirectoryName sub).
Qed.

Lemma length_append s1 s2 :
  String.length (s1 +:+ s2) = String.length s1 + String.length s2.
Proof.
  induction s1 as [|c s1 IH]; [done|].
  rewrite append_cons. simpl. by rewrite IH.
Qed.

(** X17: mangling never changes the length of a name; the mangled name
    has one separator fewer than a name that starts with the scope marker
    and holds a separator, and as many as any other name; the full npm
    name starts with the scope marker and has one separator more than the
    scope name and the mangled name together. *)
Theorem mangle_length_and_separators (name : string) :
  String.length (mangle name) = String.length name /\
  count "/" (mangle name)
  = (if startsWith name "@" && (0 <? count "/" name)
     then count "/" name - 1
     else count "/" name) /\
  startsWith (getFullNpmName scopeName name) "@" = true /\
  count "/" (getFullNpmName scopeName name)
  = count "/" scopeName + 1 + count "/" (mangle name).
Proof.
  split_and!.
  - destruct (startsWith name "@") eqn:Hscoped.
    + apply startsWith_scope in Hscoped as [s ->].
      rewrite mangle_scoped_unfold.
      destruct (decide (count "/" s = 0)) as [H0|Hn]; [done|].
      rewrite length_replace_separator. rewrite decide_False by done.
      simpl. lia.
    + by rewrite mangle_unscoped.
  - destruct (startsWith name "@") eqn:Hscoped.
    + apply startsWith_scope in Hscoped as [s ->].
      rewrite mangle_scoped_unfold. cbn [count].
      change (Ascii.eqb "/" "@") with false. cbv iota. rewrite Nat.add_0_l.
      destruct (decide (count "/" s = 0)) as [H0|Hn].
      * cbn [count]. change (Ascii.eqb "/" "@") with false.
        cbv iota. rewrite H0. reflexivity.
      * rewrite count_replace_separator.
        rewrite (proj2 (Nat.ltb_lt 0 (count "/" s))) by lia.
        simpl. lia.
    + by rewrite mangle_unscoped.
  - unfold getFullNpmName. rewrite append_cons. apply startsWith_scope.
    by eexists.
  - unfold getFullNpmName. rewrite !count_app. cbn [count].
    change (Ascii.eqb "/" "@") with false.
    change (Ascii.eqb "/" "/") with true. cbv iota. lia.
Qed.

End PathFacts.

Example getDependencyFromFile_latest :
  getDependencyFromFile "types" sampleParseVersionFromDirectoryName
    "types/a/b/c"
  = Some {| PackageId.name := "a"; PackageId.version := Star |}.
Proof. vm_compute. reflexivity. Qed.

Example getDependencyFromFile_versioned :
  getDependencyFromFile "types" sampleParseVersionFromDirectoryName
    "types/a/v3/c"
  = Some {| PackageId.name := "a";
            PackageId.version :=
              Version {| dir_major := 3; dir_minor := None |} |}.
Proof. vm_compute. reflexivity. Qed.

Example getDependencyFromFile_outside :
  getDependencyFromFile "types" sampleParseVersionFromDirectoryName "x"
  = None.
Proof. vm_compute. reflexivity. Qed.

Lemma getDependencyFromFile_cases_witness :
  getDependencyFromFile "types" sampleParseVersionFromDirectoryName "types/a"
  = None.
Proof.
  apply (proj1 (getDependencyFromFile_cases "types"
                  sampleParseVersionFromDirectoryName "types/a")).
  vm_compute. lia.
Defined.

(** ** Printing versions *)

Section FormatFacts.
Import JsString.

Lemma ofNumber_inj n m : ofNumber n = ofNumber m -> n = m.
Proof.
  unfold ofNumber. intros Heq.
  apply (f_equal NilEmpty.uint_of_string) in Heq.
  rewrite !NilEmpty.usu in Heq. injection Heq as Heq.
  by apply DecimalN.Unsigned.to_uint_inj.
Qed.

Lemma count_digits (c : ascii) d :
  (c = "." \/ c = "*")%char -> count c (NilEmpty.string_of_uint d) = 0.
Proof.
  intros Hc. induction d as [|d IH|d IH|d IH|d IH|d IH|d IH|d IH|d IH|d IH|d IH];
    simpl; [done|..]; rewrite IH; by destruct Hc as [->| ->].
Qed.

Lemma count_ofNumber (c : ascii) n :
  (c = "." \/ c = "*")%char -> count c (ofNumber n) = 0.
Proof. apply count_digits. Qed.

Lemma append_inv_head a x y : a +:+ x = a +:+ y -> x = y.
Proof.
  induction a as [|c a IH]; [done|].
  rewrite !append_cons. intros [= Heq]. auto.
Qed.

Lemma append_empty_r s : s +:+ "" = s.
Proof. induction s as [|c s IH]; [done|]. by rewrite append_cons, IH. Qed.

Lemma formatTypingVersion_inj v w :
  formatTypingVersion v = formatTypingVersion w -> v = w.
Proof.
  destruct v as [a [b|]], w as [c [d|]]; unfold formatTypingVersion; simpl;
    rewrite ?append_empty_r; intros Heq.
  - assert (split "." (ofNumber a +:+ String "." (ofNumber b))
            = split "." (ofNumber c +:+ String "." (ofNumber d))) as Hsplit
      by (by rewrite !append_cons, !append_nil in Heq; rewrite Heq).
    rewrite !split_first in Hsplit by (apply count_ofNumber; by left).
    injection Hsplit as Hac _. rewrite Hac in Heq.
    apply append_inv_head in Heq. rewrite !append_cons, !append_nil in Heq.
    injection Heq as Hbd.
    by rewrite (ofNumber_inj _ _ Hac), (ofNumber_inj _ _ Hbd).
  - apply (f_equal (count ".")) in Heq.
    rewrite count_app, append_cons, append_nil in Heq. cbn [count] in Heq.
    rewrite !count_ofNumber in Heq by (by left).
    change (Ascii.eqb "." ".") with true in Heq. cbv iota in Heq. lia.
  - apply (f_equal (count ".")) in Heq.
    rewrite count_app, append_cons, append_nil in Heq. cbn [count] in Heq.
    rewrite !count_ofNumber in Heq by (by left).
    change (Ascii.eqb "." ".") with true in Heq. cbv iota in Heq. lia.
  - by rewrite (ofNumber_inj _ _ Heq).
Qed.

(** X18: versions are printed one to one: two requested versions
    printed the same are the same version, and only the wildcard is
    printed as "*". *)
Theorem formatDependencyVersion_inj (v w : DependencyVersion) :
  safeVersion v -> safeVersion w ->
  formatDependencyVersion v = formatDependencyVersion w -> v = w.
Proof.
  intros _ _. destruct v as [|v], w as [|w]; simpl; [done|..].
  - intros Heq. apply (f_equal (count "*")) in Heq. revert Heq.
    unfold formatTypingVersion. rewrite count_app.
    destruct (dir_minor w); rewrite ?count_app;
      rewrite ?count_ofNumber by (by right); simpl; lia.
  - intros Heq. apply (f_equal (count "*")) in Heq. revert Heq.
    unfold formatTypingVersion. rewrite count_app.
    destruct (dir_minor v); rewrite ?count_app;
      rewrite ?count_ofNumber by (by right); simpl; lia.
  - by intros ->%formatTypingVersion_inj.
Qed.

Lemma formatDependencyVersion_inj_witness :
  Version {| dir_major := 14; dir_minor := Some 1%N |}
  = Version {| dir_major := 14; dir_minor := Some 1%N |}.
Proof.
  apply formatDependencyVersion_inj.
  - split; vm_compute; discriminate.
  - split; vm_compute; discriminate.
  - reflexivity.
Defined.

Example formatDependencyVersion_examples :
  formatDependencyVersion Star = "*" /\
  formatDependencyVersion
    (Version {| dir_major := 15; dir_minor := None |}) = "15" /\
  formatDependencyVersion
    (Version {| dir_major := 14; dir_minor := Some 1%N |}) = "14.1" /\
  formatDependencyVersion
    (Version {| dir_major := 0; dir_minor := Some 0%N |}) = "0.0".
Proof. vm_compute. done. Qed.

End FormatFacts.

(** ** Resolution and listings, read off the raw data *)

Section RawDataFacts.
Import TypingsVersions.

Local Abbreviation sortedVersions data :=
  (Array_sort SemVer.rcompare (imap parseKey (Object_keys data))).

(** What [tryGet] answers, in terms of the keys of the raw mapping: the
    record stored under the greatest key that answers the request, or
    nothing when no key answers it. *)
Lemma tryGet_requested (data : TypingsVersionsRaw) this version :
  new data = Some this ->
  match tryGet this version with
  | Some record =>
      exists key raw,
        key ∈ Object_keys data /\
        requestedKey version key /\
        (forall key', key' ∈ Object_keys data -> requestedKey version key' ->
                      VersionKey_le key' key) /\
        Object_get data key = Some raw /\
        TypingsData.data record = raw
  | None => forall key, key ∈ Object_keys data -> ~ requestedKey version key
  end.
Proof.
  intros Hnew. destruct (new_inv data this Hnew) as (Hvs & _).
  destruct version as [|requested]; simpl.
  - unfold getLatest.
    destruct (versions this !! 0) as [v|] eqn:Hv; simpl.
    + destruct (record_at data this 0 v Hnew Hv) as (raw & Hraw & -> & _).
      rewrite Hvs in Hv. exists (keyOf v), raw.
      split; [|split; [exact I|split; [|done]]].
      * by apply list_elem_of_lookup_2, sortedVersions_elem_of in Hv as [? _].
      * intros key' (w & [j Hj]%list_elem_of_lookup_1 & <-)%sortedVersions_key _.
        eapply (sortedVersions_sorted data 0 j); [lia|done..].
    + apply lookup_ge_None in Hv.
      pose proof (length_versions data this Hnew) as Hlen.
      destruct data; [|simpl in Hlen; lia].
      by intros key ?%elem_of_nil.
  - pose proof (tryGetLatestMatch_find data this requested Hnew) as Hfind.
    destruct (list_find _ _) as [[i v]|] eqn:Hfirst.
    + destruct Hfind as (raw & Hraw & _ & ->).
      apply list_find_Some in Hfirst as (Hv & Hmatch & Hleast).
      apply matches_iff in Hmatch. rewrite Hvs in Hv.
      exists (keyOf v), raw. split; [|split; [exact Hmatch|split; [|done]]].
      * by apply list_elem_of_lookup_2, sortedVersions_elem_of in Hv as [? _].
      * intros key' (w & [j Hj]%list_elem_of_lookup_1 & <-)%sortedVersions_key
          Hrequested.
        eapply (sortedVersions_sorted data i j); [|done..].
        apply Nat.nlt_ge. intros Hlt.
        apply (Hleast j w); [by rewrite Hvs|done|]. by apply matches_iff.
    + rewrite Hfind. apply list_find_None in Hfirst.
      rewrite Forall_forall in Hfirst.
      intros key (w & Hw & <-)%sortedVersions_key Hrequested.
      apply (Hfirst w); [by rewrite Hvs|]. by apply matches_iff.
Qed.

(** C3: [tryResolve] gives the id back where [resolve] throws, and
    never fails.  It returns the id it was given when the registry has no
    version set for the mangled name, and when no key of the raw versions
    of that name answers the requested version; otherwise it returns the
    definite-version id of the matched record: the name and the header
    version of the raw entry stored under the greatest key that answers
    the request.  (The keys of the raw versions are numbers [semver]
    accepts, as they are in a version set that was constructed.) *)
Theorem tryResolve_cases (this : AllPackages.t) (dep : PackageId.t) :
  (Map_get (AllPackages.data this) (mangle (PackageId.name dep)) = None ->
   AllPackages.tryResolve this dep = dep) /\
  (forall raws versions,
     Map_get (AllPackages.data this) (mangle (PackageId.name dep))
     = Some versions ->
     safeKeys raws ->
     new raws = Some versions ->
     ((forall key, key ∈ Object_keys raws ->
                   ~ requestedKey (PackageId.version dep) key) ->
      AllPackages.tryResolve this dep = dep) /\
     (forall key0,
        key0 ∈ Object_keys raws ->
        requestedKey (PackageId.version dep) key0 ->
        exists key raw,
          key ∈ Object_keys raws /\
          requestedKey (PackageId.version dep) key /\
          (forall key', key' ∈ Object_keys raws ->
                        requestedKey (PackageId.version dep) key' ->
                        VersionKey_le key' key) /\
          Object_get raws key = Some raw /\
          AllPackages.tryResolve this dep
          = PackageIdWithDefiniteVersion.toPackageId
              {| PackageIdWithDefiniteVersion.name :=
                   TypingsDataRaw.typingsPackageName raw;
                 PackageIdWithDefiniteVersion.version :=
                   {| hdr_major := TypingsDataRaw.libraryMajorVersion raw;
                      hdr_minor := TypingsDataRaw.libraryMinorVersion raw |}
              |})) /\
  (forall e, AllPackages.resolve this dep = Throw e ->
             AllPackages.tryResolve this dep = dep).
Proof.
  split_and!.
  - unfold AllPackages.tryResolve. by intros ->.
  - intros raws versions Hversions _ Hnew.
    pose proof (tryGet_requested raws versions (PackageId.version dep) Hnew)
      as Htry.
    unfold AllPackages.tryResolve. rewrite Hversions. simpl.
    destruct (tryGet versions (PackageId.version dep)) as [record|]; simpl.
    + destruct Htry as (key & raw & Hkey & Hrequested & Hmax & Hraw & Hdata).
      split.
      * intros Hnone. destruct (Hnone key Hkey Hrequested).
      * intros _ _ _. exists key, raw. split_and!; try done.
        unfold TypingsData.id, TypingsData.name, TypingsData.major,
          TypingsData.minor. by rewrite Hdata.
    + split; [done|]. intros key0 Hkey0 Hrequested0.
      destruct (Htry key0 Hkey0 Hrequested0).
  - intros e He. by rewrite tryResolve_resolve, He.
Qed.

Lemma tryResolve_cases_witness :
  exists key raw,
    key ∈ Object_keys [ ((1, 0)%N, sampleRaw "scope__pkg" 7 2) ] /\
    requestedKey Star key /\
    (forall key', key' ∈ Object_keys [ ((1, 0)%N, sampleRaw "scope__pkg" 7 2) ] ->
                  requestedKey Star key' -> VersionKey_le key' key) /\
    Object_get [ ((1, 0)%N, sampleRaw "scope__pkg" 7 2) ] key = Some raw /\
    AllPackages.tryResolve sampleRegistry
      {| PackageId.name := "@scope/pkg"; PackageId.version := Star |}
    = PackageIdWithDefiniteVersion.toPackageId
        {| PackageIdWithDefiniteVersion.name :=
             TypingsDataRaw.typingsPackageName raw;
           PackageIdWithDefiniteVersion.version :=
             {| hdr_major := TypingsDataRaw.libraryMajorVersion raw;
                hdr_minor := TypingsDataRaw.libraryMinorVersion raw |} |}.
Proof.
  refine (proj2 (proj1 (proj2 (tryResolve_cases sampleRegistry
            {| PackageId.name := "@scope/pkg"; PackageId.version := Star |}))
            [ ((1, 0)%N, sampleRaw "scope__pkg" 7 2) ] sampleVersions _ _ _)
            (1, 0)%N _ _).
  - reflexivity.
  - repeat (constructor; [by vm_compute|]). constructor.
  - reflexivity.
  - apply (bool_decide_unpack _). vm_compute. exact I.
  - exact I.
Defined.





(** C4: a package whose only test dependency is named ["constructor"],
    a package of the registry, and which has no path mapping at all.  The
    specification asks for one record, the latest of that dependency;
    the generator throws instead, before yielding anything: the read
    [pkg.pathMappings[name]] finds the member every plain object inherits
    under that name and takes it for a version override, which no stored
    version matches. *)
Theorem allDependencyTypings_inherited_member :
  TypingsData.dependencies constructorClient = [] /\
  TypingsData.testDependencies constructorClient = ["constructor"] /\
  Object_keys (TypingsData.pathMappings constructorClient) = [] /\
  exists this latest,
    AllPackages.from constructorFile [] = Some this /\
    AllPackages.tryGetLatestVersion this "constructor" = Some latest /\
    dependencyRequests this constructorClient = [Ok (Some latest)] /\
    AllPackages.allDependencyTypings this constructorClient
    = GThrow CouldNotFindVersionUndefined.
Proof.
  split_and!; [done..|].
  destruct (AllPackages.from constructorFile []) as [this|] eqn:Hfrom;
    [|by vm_compute in Hfrom].
  vm_compute in Hfrom. injection Hfrom as <-.
  eexists _, _. split_and!; [done|by vm_compute..].
Qed.

End RawDataFacts.
